(** * Dodo: thread flattening, tag expressions and the compose/send session

    A shallow embedding of [dodo/thread.py], [dodo/search.py] and
    [dodo/compose.py].  Python values are modelled by the types the code
    relies on, exceptions by an explicit result type, mutable objects by
    state passing, and every call to an external process (the indexer, the
    editor, the mail-transfer agent) by an entry in an effect trace. *)

From Stdlib Require Import ZArith String Ascii List Sorted Permutation Lia Bool.
From stdpp Require Import base tactics option list list_monad strings gmap sorting.

Local Open Scope string_scope.
Local Open Scope list_scope.
Local Open Scope Z_scope.

(** ** The Python runtime the three files lean on *)

Module Py.

(** The exceptions that the modelled code can raise or catch. *)
Inductive exn : Type :=
| TypeError
| KeyError (key : string)
| IndexError
| NameError (name : string)
| JSONDecodeError
| OSError
| TimeoutExpired.

(** A call either returns a value or raises. *)
Inductive res (A : Type) : Type :=
| Ok (a : A)
| Raise (e : exn).
Arguments Ok {A} a.
Arguments Raise {A} e.

#[export] Instance res_ret : MRet res := fun A a => Ok a.
#[export] Instance res_bind : MBind res := fun A B f c =>
  match c with
  | Ok a => f a
  | Raise e => Raise e
  end.

(** [l[i]] on a list: a negative index counts from the end, and an index
    outside [-len, len) raises IndexError. *)
Definition getitem {A} (l : list A) (i : Z) : res A :=
  let n := Z.of_nat (length l) in
  let j := if i <? 0 then i + n else i in
  if (0 <=? j) && (j <? n)
  then match l !! Z.to_nat j with
       | Some x => Ok x
       | None => Raise IndexError
       end
  else Raise IndexError.

(** [c in s] for a one-character [c]. *)
Fixpoint contains_char (c : ascii) (s : string) : bool :=
  match s with
  | EmptyString => false
  | String c' s' => if Ascii.eqb c c' then true else contains_char c s'
  end.

(** The characters [str.split()] treats as separators (code points below
    256: tab to carriage return, the four separators 28..31, space, NEL
    and the no-break space). *)
Definition isspace (c : ascii) : bool :=
  let n := nat_of_ascii c in
  ((9 <=? n) && (n <=? 13) || (28 <=? n) && (n <=? 32)
   || (n =? 133) || (n =? 160))%nat.

(** [s.split()]: the maximal runs of non-separator characters, in order. *)
Fixpoint split_go (cur : string) (s : string) : list string :=
  match s with
  | EmptyString => if String.eqb cur "" then [] else [cur]
  | String c s' =>
      if isspace c
      then (if String.eqb cur "" then split_go "" s' else cur :: split_go "" s')
      else split_go (cur +:+ String c "") s'
  end.
Definition split (s : string) : list string := split_go "" s.

(** [list.sort(key=...)] is documented to be stable; on integer keys its
    result is therefore determined, and a stable insertion sort computes
    it: [x] goes in front of the first element whose key is not below
    its own. *)
Fixpoint insert_key {A} (key : A -> Z) (x : A) (l : list A) : list A :=
  match l with
  | [] => [x]
  | y :: l' => if key x <=? key y then x :: y :: l' else y :: insert_key key x l'
  end.
Fixpoint sort_key {A} (key : A -> Z) (l : list A) : list A :=
  match l with
  | [] => []
  | x :: l' => insert_key key x (sort_key key l')
  end.

End Py.
Import Py.

(** ** Effects on the world outside the process *)

(** What a method does to its collaborators, in program order.  The
    collaborators themselves (the indexer, the editor, the transfer agent,
    the sent-mail store, the other panels) are not part of the program. *)
Inductive effect : Type :=
| Subprocess (argv : list string)          (* subprocess.run(argv) *)
| InvalidatePanels                         (* app.invalidate_panels() *)
| Popen (argv : list string)               (* Popen(argv, stdin=PIPE) *)
| StdinWrite (data : string)               (* sendmail.stdin.write(data) *)
| StdinClose                               (* sendmail.stdin.close() *)
| Wait (timeout : nat)                     (* sendmail.wait(timeout) *)
| MaildirAdd (dir : string) (text : string) (flags : string)
                                           (* Maildir(dir).add(m), m carrying flags *)
| Print (line : string)                    (* print(line) *)
| WriteFile (path : string) (data : string) (* f.write(data); f.close() *)
| RemoveFile (path : string)               (* os.remove(path) *)
| SetHtml (status : string) (text : string) (* message_view.setHtml(...) *)
| Done                                     (* self.done.emit() *)
| ThreadStart (cls : string).              (* QThread.start() *)

(** Methods mutate [self] and act on the world; both are threaded through
    explicitly, and a raised exception keeps the mutations made so far. *)
Module Run.

Record state (S : Type) : Type := State { self : S; trace : list effect }.
Arguments State {S} self trace.
Arguments self {S} s.
Arguments trace {S} s.

Definition M (S A : Type) : Type := state S -> state S * res A.

Definition ret {S A} (a : A) : M S A := fun s => (s, Ok a).
Definition bind {S A B} (k : A -> M S B) (c : M S A) : M S B := fun s =>
  match c s with
  | (s', Ok a) => k a s'
  | (s', Raise e) => (s', Raise e)
  end.
#[export] Instance M_ret {S} : MRet (M S) := @ret S.
#[export] Instance M_bind {S} : MBind (M S) := @bind S.
Definition raise {S A} (e : exn) : M S A := fun s => (s, Raise e).
Definition lift {S A} (c : res A) : M S A := fun s => (s, c).
Definition get {S} : M S S := fun s => (s, Ok (self s)).
Definition modify {S} (f : S -> S) : M S unit := fun s =>
  (State (f (self s)) (trace s), Ok tt).
Definition emit {S} (e : effect) : M S unit := fun s =>
  (State (self s) (trace s ++ [e]), Ok tt).

(** Run a method of a sub-object held in a field of [self]. *)
Definition zoom {S T A} (field : S -> T) (update : T -> S -> S) (c : M T A) : M S A :=
  fun s =>
    let '(t', r) := c (State (field (self s)) (trace s)) in
    (State (update (self t') (self s)) (trace t'), r).

(** [try: body finally: fin]. *)
Definition try_finally {S A} (body : M S A) (fin : M S unit) : M S A := fun s =>
  let '(s1, r) := body s in
  match fin s1 with
  | (s2, Ok _) => (s2, r)
  | (s2, Raise e) => (s2, Raise e)
  end.

(** [try: body except E: handler], where [handles] tells which exceptions
    the clause catches. *)
Definition try_except {S A} (body : M S A) (handles : exn -> bool) (handler : M S A)
  : M S A := fun s =>
  match body s with
  | (s1, Raise e) => if handles e then handler s1 else (s1, Raise e)
  | out => out
  end.

(** Start from [self] with an empty trace. *)
Definition exec {S A} (c : M S A) (s : S) : state S * res A := c (State s []).

End Run.
Import Run.

(** ** The parts of Qt's item models the panels call *)

Module Qt.

(** A [QModelIndex] of a flat model: the row of a valid index, or the
    invalid index. *)
Definition QModelIndex : Type := option Z.

Definition row (ix : QModelIndex) : Z :=
  match ix with Some r => r | None => -1 end.

(** [hasIndex(row, 0)] for a model with [rows] top-level rows. *)
Definition hasIndex (rows : Z) (r : Z) : bool := (0 <=? r) && (r <? rows).

(** [checkIndex(ix)] with the default options: the invalid index is legal,
    a valid one must lie inside the model. *)
Definition checkIndex (rows : Z) (ix : QModelIndex) : bool :=
  match ix with
  | None => true
  | Some r => hasIndex rows r
  end.

End Qt.

(** ** thread.py *)

Module Thread.

(** One message object of [notmuch show --format=json].  The keys the code
    tests with [in] before use are optional; [timestamp] is read
    unconditionally by [flat_thread]. *)
Record message : Type := {
  id : option string;
  timestamp : Z;
  headers : option (gmap string string);
  tags : option (list string)
}.

(** The JSON scalars that are neither an object nor an array. *)
Inductive scalar : Type :=
| JNull
| JBool (b : bool)
| JNum (mantissa exponent : Z)
| JStr (s : string).

(** What [json.loads] hands to [flat_thread]: an array of nodes, a message
    object, or some other JSON value. *)
#[warnings="-register-all"]
Inductive node : Type :=
| Msg (m : message)
| Seq (ys : list node)
| Atom (a : scalar).

(** [dfs] appends to the list [thread] of the enclosing call; the list is
    threaded through explicitly. *)
Fixpoint dfs (x : node) (thread : list node) : list node :=
  match x with
  | Seq ys => fold_left (fun thread y => dfs y thread) ys thread
  | _ => thread ++ [x]
  end.

(** The key function [lambda m: m['timestamp']] on one collected element.
    [list.sort] evaluates it on every element, in order, before it
    compares anything; on a value that is not an object the subscript
    raises TypeError. *)
Definition subscript_timestamp (x : node) : res message :=
  match x with
  | Msg m => Ok m
  | Seq _ | Atom _ => Raise TypeError
  end.

Definition flat_thread (d : node) : res (list message) :=
  thread ← mapM subscript_timestamp (dfs d []);
  Ok (sort_key timestamp thread).

(** *** class ThreadModel *)

Record ThreadModel : Type := {
  thread_id : string;
  d : node;
  thread : list message
}.

Definition set_d (d' : node) (self : ThreadModel) : ThreadModel :=
  {| thread_id := thread_id self; d := d'; thread := thread self |}.
Definition set_thread (thread' : list message) (self : ThreadModel) : ThreadModel :=
  {| thread_id := thread_id self; d := d self; thread := thread' |}.

(** [ThreadModel.refresh].  [shown] is what [json.loads] makes of the
    standard output of the indexer's show command. *)
Definition ThreadModel_refresh (shown : res node) : M ThreadModel unit :=
  self ← get;
  emit (Subprocess ["notmuch"; "show"; "--format=json"; "--include-html"; thread_id self]) ;;
  d' ← lift shown;
  modify (set_d d') ;;
  thread' ← lift (flat_thread d');
  modify (set_thread thread').

Definition num_messages (self : ThreadModel) : Z := Z.of_nat (length (thread self)).

Definition message_at (self : ThreadModel) (i : Z) : res message :=
  getitem (thread self) i.

(** ['tags' in m and 'unread' in m['tags']]. *)
Definition is_unread (m : message) : bool :=
  match tags m with
  | Some ts => bool_decide ("unread" ∈ ts)
  | None => false
  end.

(** The loop of [default_message] over [enumerate(self.thread)], entered
    at index [i]. *)
Fixpoint default_message_loop (i : Z) (l : list message) : option Z :=
  match l with
  | [] => None
  | m :: l' => if is_unread m then Some i else default_message_loop (i + 1) l'
  end.

Definition default_message (self : ThreadModel) : Z :=
  match default_message_loop 0 (thread self) with
  | Some i => i
  | None => num_messages self - 1
  end.

(** [ThreadModel.index(row, 0)] and the model's [checkIndex]. *)
Definition index (self : ThreadModel) (row : Z) : Qt.QModelIndex :=
  if Qt.hasIndex (num_messages self) row then Some row else None.
Definition checkIndex (self : ThreadModel) (ix : Qt.QModelIndex) : bool :=
  Qt.checkIndex (num_messages self) ix.

(** *** class ThreadPanel *)

(** [thread_list_current] is the current index of the panel's list view. *)
Record ThreadPanel : Type := {
  model : ThreadModel;
  current_message : Z;
  subject : string;
  thread_list_current : Qt.QModelIndex
}.

Definition set_model (model' : ThreadModel) (self : ThreadPanel) : ThreadPanel :=
  {| model := model'; current_message := current_message self;
     subject := subject self; thread_list_current := thread_list_current self |}.
Definition set_subject (subject' : string) (self : ThreadPanel) : ThreadPanel :=
  {| model := model self; current_message := current_message self;
     subject := subject'; thread_list_current := thread_list_current self |}.
Definition setCurrentIndex (ix : Qt.QModelIndex) (self : ThreadPanel) : ThreadPanel :=
  {| model := model self; current_message := current_message self;
     subject := subject self; thread_list_current := ix |}.

(** [ThreadPanel.refresh]: the header table written to [message_info] is
    markup only and is left out, as is the base class's [refresh]. *)
Definition ThreadPanel_refresh (shown : res node) : M ThreadPanel unit :=
  zoom model set_model (ThreadModel_refresh shown) ;;
  self ← get;
  let ix := index (model self) (current_message self) in
  (if checkIndex (model self) ix then modify (setCurrentIndex ix) else ret tt) ;;
  m ← lift (message_at (model self) (current_message self));
  modify (set_subject
            match headers m with
            | Some hs => default "(no subject)" (hs !! "Subject")
            | None => "(no subject)"
            end).

(** [ThreadPanel.tag_message].  A message object is never an empty dict,
    so the test [if m] succeeds whenever [message_at] returns. *)
Definition tag_message (tag_expr : string) (shown : res node) : M ThreadPanel unit :=
  self ← get;
  m ← lift (message_at (model self) (current_message self));
  let tag_expr :=
    if negb (contains_char "+" tag_expr || contains_char "-" tag_expr)
    then "+" +:+ tag_expr else tag_expr in
  i ← lift (match id m with Some i => Ok i | None => Raise (KeyError "id") end);
  emit (Subprocess (["notmuch"; "tag"] ++ split tag_expr ++ ["--"; "id:" +:+ i])) ;;
  emit InvalidatePanels ;;
  ThreadPanel_refresh shown.

(** [ThreadPanel.toggle_message_tag]. *)
Definition toggle_message_tag (tag : string) (shown : res node) : M ThreadPanel unit :=
  self ← get;
  m ← lift (message_at (model self) (current_message self));
  ts ← lift (match tags m with Some ts => Ok ts | None => Raise (KeyError "tags") end);
  let tag_expr := if bool_decide (tag ∈ ts) then "-" +:+ tag else "+" +:+ tag in
  tag_message tag_expr shown.

End Thread.
Import Thread.

(** ** search.py *)

Module Search.

(** One row of [notmuch search --format=json]. *)
Record SearchRow : Type := {
  date_relative : string;
  authors : string;
  subject : string;
  tags : list string;
  thread : option string
}.

(** *** class SearchModel *)

Record SearchModel : Type := {
  q : string;
  d : list SearchRow
}.

Definition set_d (d' : list SearchRow) (self : SearchModel) : SearchModel :=
  {| q := q self; d := d' |}.

(** [SearchModel.refresh]; [found] is what [json.loads] makes of the
    indexer's output. *)
Definition SearchModel_refresh (found : res (list SearchRow)) : M SearchModel unit :=
  self ← get;
  emit (Subprocess ["notmuch"; "search"; "--format=json"; q self]) ;;
  d' ← lift found;
  modify (set_d d').

Definition num_threads (self : SearchModel) : Z := Z.of_nat (length (d self)).

Definition index (self : SearchModel) (row : Z) : Qt.QModelIndex :=
  if Qt.hasIndex (num_threads self) row then Some row else None.
Definition checkIndex (self : SearchModel) (ix : Qt.QModelIndex) : bool :=
  Qt.checkIndex (num_threads self) ix.

Definition thread_json (self : SearchModel) (ix : Qt.QModelIndex) : option SearchRow :=
  let row := Qt.row ix in
  if (0 <=? row) && (row <? num_threads self)
  then d self !! Z.to_nat row
  else None.

(** A search row always has keys, so [if thread] only tests for None. *)
Definition thread_id (self : SearchModel) (ix : Qt.QModelIndex) : option string :=
  match thread_json self ix with
  | Some row => thread row
  | None => None
  end.

(** *** class SearchPanel *)

(** [tree_current] is the current index of the panel's tree view. *)
Record SearchPanel : Type := {
  model : SearchModel;
  tree_current : Qt.QModelIndex
}.

Definition set_model (model' : SearchModel) (self : SearchPanel) : SearchPanel :=
  {| model := model'; tree_current := tree_current self |}.
Definition setCurrentIndex (ix : Qt.QModelIndex) (self : SearchPanel) : SearchPanel :=
  {| model := model self; tree_current := ix |}.

Definition last_thread : M SearchPanel unit :=
  self ← get;
  let ix := index (model self) (num_threads (model self) - 1) in
  if checkIndex (model self) ix then modify (setCurrentIndex ix) else ret tt.

(** [SearchPanel.refresh] (the base class's [refresh] is left out). *)
Definition SearchPanel_refresh (found : res (list SearchRow)) : M SearchPanel unit :=
  self ← get;
  let current := tree_current self in
  zoom model set_model (SearchModel_refresh found) ;;
  self ← get;
  if Qt.row current >=? num_threads (model self)
  then last_thread
  else modify (setCurrentIndex current).

(** [SearchPanel.tag_thread]: [if thread_id] fails for None and for the
    empty string. *)
Definition tag_thread (tag_expr : string) (found : res (list SearchRow))
  : M SearchPanel unit :=
  self ← get;
  let thread_id := thread_id (model self) (tree_current self) in
  let tag_expr :=
    if negb (contains_char "+" tag_expr || contains_char "-" tag_expr)
    then "+" +:+ tag_expr else tag_expr in
  match thread_id with
  | Some t =>
      if String.eqb t "" then ret tt
      else
        emit (Subprocess (["notmuch"; "tag"] ++ split tag_expr ++ ["--"; "thread:" +:+ t])) ;;
        emit InvalidatePanels ;;
        SearchPanel_refresh found
  | None => ret tt
  end.

(** [SearchPanel.toggle_thread_tag]. *)
Definition toggle_thread_tag (tag : string) (found : res (list SearchRow))
  : M SearchPanel unit :=
  self ← get;
  match thread_json (model self) (tree_current self) with
  | Some row =>
      let tag_expr := if bool_decide (tag ∈ tags row) then "-" +:+ tag else "+" +:+ tag in
      tag_thread tag_expr found
  | None => ret tt
  end.

End Search.

(** ** compose.py *)

Module Compose.

(** *** Strings *)

Definition CR : ascii := "013"%char.
Definition LF : ascii := "010"%char.

(** Reading a text file opened with [open(file, 'r')]: universal newlines
    turn every CR LF pair and every lone CR into LF.  (Writing in text
    mode leaves LF alone on POSIX.) *)
Fixpoint universal_newlines (raw : string) : string :=
  match raw with
  | EmptyString => EmptyString
  | String c rest =>
      if Ascii.eqb c CR
      then String LF
             match rest with
             | String c' rest' =>
                 if Ascii.eqb c' LF then universal_newlines rest' else universal_newlines rest
             | EmptyString => EmptyString
             end
      else String c (universal_newlines rest)
  end.

(** [s.split(sep)] for a one-character separator: every occurrence
    splits, and empty pieces are kept. *)
Fixpoint split_on_go (sep : ascii) (cur : string) (s : string) : list string :=
  match s with
  | EmptyString => [cur]
  | String c s' =>
      if Ascii.eqb c sep then cur :: split_on_go sep "" s'
      else split_on_go sep (cur +:+ String c "") s'
  end.
Definition split_on (sep : ascii) (s : string) : list string := split_on_go sep "" s.

(** [s.lower()] on the ASCII letters. *)
Definition lower_char (c : ascii) : ascii :=
  let n := nat_of_ascii c in
  if ((65 <=? n) && (n <=? 90))%nat then ascii_of_nat (n + 32) else c.
Fixpoint lower (s : string) : string :=
  match s with
  | EmptyString => EmptyString
  | String c s' => String (lower_char c) (lower s')
  end.

(** *** Messages of the [email] package *)

(** What [email.message_from_string] returns: the header fields in the
    order of the text, and the payload. *)
Record Message : Type := {
  fields : list (string * string);
  payload : string
}.

(** [m[name]]: the value of the first field whose name matches [name]
    without regard to case. *)
Definition Message_getitem (fs : list (string * string)) (name : string) : option string :=
  snd <$> List.find (fun f => String.eqb (lower (fst f)) (lower name)) fs.

Record Attachment : Type := {
  data : string;
  maintype : string;
  subtype : string;
  filename : string
}.

(** The [EmailMessage] under construction. *)
Record EmailMessage : Type := {
  eml_fields : list (string * string);
  eml_content : option string;
  eml_attachments : list Attachment
}.

Definition EmailMessage_new : EmailMessage :=
  {| eml_fields := []; eml_content := None; eml_attachments := [] |}.
Definition set_content (text : string) (eml : EmailMessage) : EmailMessage :=
  {| eml_fields := eml_fields eml; eml_content := Some text;
     eml_attachments := eml_attachments eml |}.
Definition add_attachment (a : Attachment) (eml : EmailMessage) : EmailMessage :=
  {| eml_fields := eml_fields eml; eml_content := eml_content eml;
     eml_attachments := eml_attachments eml ++ [a] |}.
(** [name in eml]. *)
Definition EmailMessage_contains (name : string) (eml : EmailMessage) : bool :=
  bool_decide (is_Some (Message_getitem (eml_fields eml) name)).

(** *** The world around a compose session *)

(** What the external editor did with the temporary file. *)
Inductive editor_result : Type :=
| CannotStart                                  (* subprocess.run raises *)
| Exited (returncode : Z) (file : option string).
                               (* it ran; the file's bytes afterwards, if any *)

(** The library functions, the settings and the processes that one run of
    a background thread meets. *)
Record env : Type := {
  (* the email package and friends *)
  message_from_string : string -> Message;
  setitem : EmailMessage -> string -> string -> res EmailMessage;  (* eml[name] = value *)
  as_string : EmailMessage -> string;                             (* str(eml) *)
  guess_type : string -> option string;          (* mimetypes.guess_type(path)[0] *)
  formatdate : string;                           (* email.utils.formatdate(localtime=True) *)
  expanduser : string -> string;
  basename : string -> string;
  mkstemp : string;                              (* the path tempfile.mkstemp returns *)
  (* settings *)
  editor_command : list string;
  send_mail_command : list string;
  sent_dir : string;
  theme : string -> string;
  (* the file system and the external processes *)
  read_bytes : string -> option string;          (* open(path, 'rb').read(), None for IOError *)
  editor : string -> editor_result;              (* the editor, given the file it is handed *)
  sendmail_exit_after : option nat;              (* seconds until the agent exits, if ever *)
  sendmail_returncode : Z
}.

(** [sendmail.wait(timeout)]. *)
Definition wait (E : env) (timeout : nat) : res Z :=
  match sendmail_exit_after E with
  | Some t => if (t <=? timeout)%nat then Ok (sendmail_returncode E) else Raise TimeoutExpired
  | None => Raise TimeoutExpired
  end.

(** *** class ComposeView *)

(** A [QThread] held in one of the view's handles. *)
Inductive QThread : Type := Running | Finished.

Record ComposeView : Type := {
  message_string : string;
  status : string;
  editor_thread : option QThread;
  sendmail_thread : option QThread;
  reply_to : option message
}.

Definition set_message_string (text : string) (self : ComposeView) : ComposeView :=
  {| message_string := text; status := status self; editor_thread := editor_thread self;
     sendmail_thread := sendmail_thread self; reply_to := reply_to self |}.
Definition set_status (status' : string) (self : ComposeView) : ComposeView :=
  {| message_string := message_string self; status := status';
     editor_thread := editor_thread self; sendmail_thread := sendmail_thread self;
     reply_to := reply_to self |}.
Definition set_editor_thread (t : option QThread) (self : ComposeView) : ComposeView :=
  {| message_string := message_string self; status := status self; editor_thread := t;
     sendmail_thread := sendmail_thread self; reply_to := reply_to self |}.
Definition set_sendmail_thread (t : option QThread) (self : ComposeView) : ComposeView :=
  {| message_string := message_string self; status := status self;
     editor_thread := editor_thread self; sendmail_thread := t; reply_to := reply_to self |}.

(** The status line [<i style="color:COLOUR">LABEL</i>]. *)
Definition status_markup (colour label : string) : string :=
  "<i style=" +:+ String "034" "color:" +:+ colour +:+ String "034" ">" +:+ label +:+ "</i>".

(** [ComposeView.__init__], after lines 113 to 144 have built the draft
    text from the message replied to. *)
Definition ComposeView_init (E : env) (draft : string) (reply_to : option message)
  : ComposeView :=
  {| message_string := draft; status := status_markup (theme E "fg") "draft";
     editor_thread := None; sendmail_thread := None; reply_to := reply_to |}.

Definition ComposeView_refresh : M ComposeView unit :=
  self ← get;
  emit (SetHtml (status self) (message_string self)).

Definition edit_done : M ComposeView unit :=
  modify (set_editor_thread None) ;;
  ComposeView_refresh.

Definition edit : M ComposeView unit :=
  self ← get;
  match editor_thread self with
  | None =>
      modify (set_editor_thread (Some Running)) ;;
      emit (ThreadStart "EditorThread")
  | Some _ => ret tt
  end.

Definition send (E : env) : M ComposeView unit :=
  self ← get;
  match sendmail_thread self with
  | None =>
      modify (set_status (status_markup (theme E "fg_bright") "sending")) ;;
      ComposeView_refresh ;;
      modify (set_sendmail_thread (Some Running)) ;;
      emit (ThreadStart "SendmailThread")
  | Some _ => ret tt
  end.

(** *** class EditorThread *)

(** [EditorThread.run].  The slot connected to [done] is [edit_done]; it is
    run as soon as the signal is emitted. *)
Definition EditorThread_run (E : env) : M ComposeView unit :=
  try_finally
    (self ← get;
     let file := mkstemp E in
     emit (WriteFile file (message_string self)) ;;
     emit (Subprocess (editor_command E ++ [file])) ;;
     match editor E (message_string self) with
     | CannotStart => raise OSError
     | Exited _ (Some raw) =>
         modify (set_message_string (universal_newlines raw)) ;;
         emit (RemoveFile file)
     | Exited _ None => raise OSError
     end)
    (emit Done ;; edit_done).

(** *** class SendmailThread *)

(** Lines 55 to 60: the loop over the header names of the parsed draft.
    [m[h]] finds the first field of that name, whichever field the loop is
    at. *)
Fixpoint copy_headers (E : env) (m : Message) (names : list string)
    (attachments : list string) (eml : EmailMessage)
  : res (list string * EmailMessage) :=
  match names with
  | [] => Ok (attachments, eml)
  | h :: names' =>
      let value := default "" (Message_getitem (fields m) h) in
      if String.eqb h "A"
      then copy_headers E m names' (attachments ++ [value]) eml
      else eml' ← setitem E eml h value;
           copy_headers E m names' attachments eml'
  end.

(** Lines 68 to 72. *)
Definition attachment_type (E : env) (att : string) : list string :=
  match guess_type E att with
  | Some mime =>
      if negb (String.eqb mime "") && (length (split_on "/" mime) =? 2)%nat
      then split_on "/" mime
      else ["application"; "octet-stream"]
  | None => ["application"; "octet-stream"]
  end.

(** Lines 67 to 79: the loop over the attachments.  The handler of
    IOError evaluates ["Can't read attachment: " + a]; no name [a] is
    bound in [run], in the module or among the builtins (the loop variable
    is [att]), so the handler raises NameError before anything is
    printed. *)
Fixpoint attach (E : env) (attachments : list string) (eml : EmailMessage)
  : res EmailMessage :=
  match attachments with
  | [] => Ok eml
  | att :: attachments' =>
      let ty := attachment_type E att in
      match read_bytes E (expanduser E att) with
      | Some bytes =>
          attach E attachments'
            (add_attachment
               {| data := bytes; maintype := nth 0 ty ""; subtype := nth 1 ty "";
                  filename := basename E att |} eml)
      | None => Raise (NameError "a")
      end
  end.

(** Lines 53 to 79: the message handed to the transfer agent. *)
Definition assemble (E : env) (message_string : string) : res EmailMessage :=
  let m := message_from_string E message_string in
  '(attachments, eml) ← copy_headers E m (fst <$> fields m) [] EmailMessage_new;
  let eml := set_content (payload m) eml in
  eml ← (if EmailMessage_contains "Date" eml then Ok eml
         else setitem E eml "Date" (formatdate E));
  attach E attachments eml.

(** [SendmailThread.run].  The slot connected to [done] is the view's
    [refresh]. *)
Definition SendmailThread_run (E : env) : M ComposeView unit :=
  try_finally
    (try_except
       (self ← get;
        eml ← lift (assemble E (message_string self));
        emit (Popen (send_mail_command E)) ;;
        emit (StdinWrite (as_string E eml)) ;;
        emit StdinClose ;;
        emit (Wait 30) ;;
        returncode ← lift (wait E 30);
        if returncode =? 0
        then
          emit (MaildirAdd (sent_dir E) (as_string E eml) "S") ;;
          match reply_to self with
          | Some original =>
              i ← lift (match id original with
                        | Some i => Ok i
                        | None => Raise (KeyError "id")
                        end);
              emit (Subprocess ["notmuch"; "tag"; "+replied"; "--"; "id:" +:+ i])
          | None => ret tt
          end ;;
          emit (Subprocess ["notmuch"; "new"]) ;;
          emit InvalidatePanels ;;
          modify (set_status (status_markup (theme E "fg_good") "sent"))
        else
          modify (set_status (status_markup (theme E "fg_bad") "error")))
       (fun e => match e with TimeoutExpired => true | _ => false end)
       (modify (set_status (status_markup (theme E "fg_bad") "timed out"))))
    (emit Done ;; ComposeView_refresh).

(** *** A session: calls on the UI thread and runs of the background
    threads, in the order they happen *)

Inductive event : Type :=
| CallEdit                (* the user invokes edit() *)
| CallSend                (* the user invokes send() *)
| EditorThreadRuns        (* a started EditorThread runs to its end *)
| SendmailThreadRuns.     (* a started SendmailThread runs to its end *)

(** One event, in the world [E] of that moment.  An exception that leaves
    a thread's [run] ends that thread only. *)
Definition step (E : env) (ev : event) (s : state ComposeView) : state ComposeView :=
  match ev with
  | CallEdit => (edit s).1
  | CallSend => (send E s).1
  | EditorThreadRuns =>
      match editor_thread (self s) with
      | Some Running => (EditorThread_run E s).1
      | _ => s
      end
  | SendmailThreadRuns =>
      match sendmail_thread (self s) with
      | Some Running =>
          (modify (set_sendmail_thread (Some Finished)) (SendmailThread_run E s).1).1
      | _ => s
      end
  end.

Definition session (evs : list (env * event)) (s : state ComposeView) : state ComposeView :=
  fold_left (fun s ev => step ev.1 ev.2 s) evs s.

End Compose.
Import Compose.

(** ** The settings module, as far as the three files read it *)

Module Settings.

Record settings : Type := {
  search_font : string;
  search_font_size : Z;
  theme : gmap string string;
  tag_icons : gmap string string;
  html_block_remote_requests : bool;
  email_address : string
}.

(** [settings.theme[key]]. *)
Definition theme_getitem (S : settings) (key : string) : res string :=
  match theme S !! key with
  | Some colour => Ok colour
  | None => Raise (KeyError key)
  end.

End Settings.

(** ** What an item model hands to a view *)

Module QtData.

(** The role a view asks [data] for; [OtherRole] stands for every role the
    code does not name. *)
Inductive ItemDataRole : Type := DisplayRole | FontRole | ForegroundRole | OtherRole.

(** What [data] returns: None, a string, a [QFont] or a [QColor]. *)
Inductive QVariant : Type :=
| NoData
| Text (s : string)
| Font (family : string) (size : Z) (bold : bool)
| Color (name : string).

End QtData.

(** ** thread.py, the remaining methods *)

Module ThreadViews.

(** [short_string]: a function that falls off its end returns None. *)
Definition short_string (m : message) : option string :=
  match headers m with
  | Some hs => hs !! "From"
  | None => None
  end.

(** [ThreadModel.data], given [index.row()]. *)
Definition data (S : Settings.settings) (self : ThreadModel) (row : Z)
    (role : QtData.ItemDataRole) : res QtData.QVariant :=
  if row >=? Z.of_nat (length (thread self)) then Ok QtData.NoData
  else
    m ← getitem (thread self) row;
    match role with
    | QtData.DisplayRole =>
        Ok (QtData.Text
              match headers m with
              | Some hs => default "(message)" (hs !! "From")
              | None => "(message)"
              end)
    | QtData.FontRole =>
        Ok (QtData.Font (Settings.search_font S) (Settings.search_font_size S) (is_unread m))
    | QtData.ForegroundRole =>
        if is_unread m
        then colour ← Settings.theme_getitem S "fg_subject_unread"; Ok (QtData.Color colour)
        else colour ← Settings.theme_getitem S "fg"; Ok (QtData.Color colour)
    | QtData.OtherRole => Ok QtData.NoData
    end.

Definition columnCount : Z := 1.

(** [ThreadModel.rowCount]: a [QModelIndex] object is always true, so the
    test is that of [isValid]. *)
Definition rowCount (self : ThreadModel) (ix : Qt.QModelIndex) : Z :=
  match ix with
  | None => num_messages self
  | Some _ => 0
  end.

(** [ThreadModel.parent]. *)
Definition parent (ix : Qt.QModelIndex) : Qt.QModelIndex := None.

Definition set_current_message (i : Z) (self : ThreadPanel) : ThreadPanel :=
  {| model := model self; current_message := i;
     subject := subject self; thread_list_current := thread_list_current self |}.

(** [ThreadPanel.show_message], up to and including the removal of the
    "unread" tag.  [shown] is what the indexer shows to the method's own
    [refresh], [shown'] what it shows after the tag command.  The rendering
    of the body that follows (the image handler and the helpers of the util
    module) is left out. *)
Definition show_message (i : Z) (shown shown' : res node) : M ThreadPanel unit :=
  (if negb (i =? -1) then modify (set_current_message i) else mret tt) ;;
  self ← get;
  if (current_message self >=? 0) && (current_message self <? num_messages (model self))
  then
    ThreadPanel_refresh shown ;;
    self ← get;
    m ← lift (message_at (model self) (current_message self));
    ts ← lift (match tags m with Some ts => Ok ts | None => Raise (KeyError "tags") end);
    if bool_decide ("unread" ∈ ts) then tag_message "-unread" shown' else mret tt
  else mret tt.

Definition next_message (shown shown' : res node) : M ThreadPanel unit :=
  self ← get;
  show_message (Z.min (current_message self + 1) (num_messages (model self) - 1))
    shown shown'.

Definition previous_message (shown shown' : res node) : M ThreadPanel unit :=
  self ← get;
  show_message (Z.max (current_message self - 1) 0) shown shown'.

(** *** class MessageRequestInterceptor *)

Inductive ResourceType : Type := ResourceTypeMainFrame | ResourceTypeOther.

Record QWebEngineUrlRequestInfo : Type := {
  resourceType : ResourceType;
  requestUrl : string
}.

(** [interceptRequest]: whether [info.block(True)] is called. *)
Definition interceptRequest (S : Settings.settings) (info : QWebEngineUrlRequestInfo) : bool :=
  if Settings.html_block_remote_requests S
  then negb (match resourceType info with
             | ResourceTypeMainFrame => true
             | ResourceTypeOther => false
             end
             || String.eqb (String.substring 0 4 (requestUrl info)) "cid:")
  else false.

(** *** class EmbeddedImageHandler *)

(** [s[n:]]. *)
Fixpoint slice_from (n : nat) (s : string) : string :=
  match n, s with
  | O, _ => s
  | S n', String _ s' => slice_from n' s'
  | S _, EmptyString => EmptyString
  end.

(** A message of the [email] package with its parts: the header fields,
    what [get_content_type()] and [get_payload(decode=True)] return (the
    latter is None on a multipart container), and the sub-parts. *)
#[warnings="-register-all"]
Inductive mime : Type :=
| Part (part_fields : list (string * string)) (content_type : string)
       (body : option string) (subparts : list mime).

Definition part_fields (p : mime) : list (string * string) :=
  match p with Part fs _ _ _ => fs end.
Definition content_type (p : mime) : string :=
  match p with Part _ ct _ _ => ct end.
Definition body (p : mime) : option string :=
  match p with Part _ _ b _ => b end.

(** [message.walk()]: the message itself, then its parts, depth first. *)
Fixpoint walk (p : mime) : list mime :=
  match p with
  | Part _ _ _ ps => p :: flat_map walk ps
  end.

(** ["Content-id" in part and part["Content-id"] == f'<{cid}>']. *)
Definition has_content_id (cid : string) (p : mime) : bool :=
  match Message_getitem (part_fields p) "Content-id" with
  | Some value => String.eqb value ("<" +:+ cid +:+ ">")
  | None => false
  end.

(** What the handler does with the request. *)
Inductive job_action : Type :=
| Said (line : string)                       (* print(line) *)
| Replied (content_type : string) (data : string)   (* request.reply(...) *)
| Failed.                                    (* request.fail(UrlNotFound) *)

(** [requestStarted].  A message object is true when it has at least one
    header field; writing the None payload of a container to the buffer
    raises TypeError. *)
Definition requestStarted (message : option mime) (url : string)
  : list job_action * res unit :=
  let cid := slice_from 4 url in
  let found :=
    match message with
    | Some root =>
        match part_fields root with
        | [] => None
        | _ :: _ => List.find (has_content_id cid) (walk root)
        end
    | None => None
    end in
  match found with
  | Some part =>
      match body part with
      | Some bytes =>
          ([Said "found cid"; Replied (content_type part) bytes]
             ++ (if String.eqb (content_type part) "" then [Failed] else []), Ok tt)
      | None => ([Said "found cid"], Raise TypeError)
      end
  | None => ([Failed], Ok tt)
  end.

End ThreadViews.

(** ** search.py, the remaining methods *)

Module SearchViews.

Definition columns : list string := ["date"; "from"; "subject"; "tags"].

(** The text of the tags column: the icon of a tag that has one, the tag in
    brackets otherwise, joined by spaces. *)
Definition tags_text (S : Settings.settings) (ts : list string) : string :=
  String.concat " "
    (map (fun t => default ("[" +:+ t +:+ "]") (Settings.tag_icons S !! t)) ts).

(** [SearchModel.data], given [index.row()] and [index.column()]. *)
Definition data (S : Settings.settings) (self : Search.SearchModel) (row column : Z)
    (role : QtData.ItemDataRole) : res QtData.QVariant :=
  if (row >=? Z.of_nat (length (Search.d self)))
     || (column >=? Z.of_nat (length columns))
  then Ok QtData.NoData
  else
    thread_d ← getitem (Search.d self) row;
    col ← getitem columns column;
    let unread := bool_decide ("unread" ∈ Search.tags thread_d) in
    match role with
    | QtData.DisplayRole =>
        if String.eqb col "date" then Ok (QtData.Text (Search.date_relative thread_d))
        else if String.eqb col "from" then Ok (QtData.Text (Search.authors thread_d))
        else if String.eqb col "subject" then Ok (QtData.Text (Search.subject thread_d))
        else if String.eqb col "tags"
             then Ok (QtData.Text (tags_text S (Search.tags thread_d)))
        else Ok QtData.NoData
    | QtData.FontRole =>
        Ok (QtData.Font (Settings.search_font S) (Settings.search_font_size S) unread)
    | QtData.ForegroundRole =>
        let color := "fg_" +:+ col in
        let unread_color := "fg_" +:+ col +:+ "_unread" in
        if unread && bool_decide (is_Some (Settings.theme S !! unread_color))
        then colour ← Settings.theme_getitem S unread_color; Ok (QtData.Color colour)
        else if bool_decide (is_Some (Settings.theme S !! color))
        then colour ← Settings.theme_getitem S color; Ok (QtData.Color colour)
        else colour ← Settings.theme_getitem S "fg"; Ok (QtData.Color colour)
    | QtData.OtherRole => Ok QtData.NoData
    end.

(** [SearchModel.headerData]; the orientation is not looked at. *)
Definition headerData (section : Z) (role : QtData.ItemDataRole) : res (option string) :=
  match role with
  | QtData.DisplayRole =>
      if section <=? Z.of_nat (length columns)
      then name ← getitem columns section; Ok (Some name)
      else Ok None
  | _ => Ok None
  end.

Definition columnCount : Z := Z.of_nat (length columns).

Definition rowCount (self : Search.SearchModel) (ix : Qt.QModelIndex) : Z :=
  match ix with
  | None => Search.num_threads self
  | Some _ => 0
  end.

Definition next_thread : M Search.SearchPanel unit :=
  self ← get;
  let row := Qt.row (Search.tree_current self) + 1 in
  if (row >=? 0) && (row <? rowCount (Search.model self) None)
  then modify (Search.setCurrentIndex (Search.index (Search.model self) row))
  else mret tt.

Definition previous_thread : M Search.SearchPanel unit :=
  self ← get;
  let row := Qt.row (Search.tree_current self) - 1 in
  if (row >=? 0) && (row <? rowCount (Search.model self) None)
  then modify (Search.setCurrentIndex (Search.index (Search.model self) row))
  else mret tt.

Definition first_thread : M Search.SearchPanel unit :=
  self ← get;
  let ix := Search.index (Search.model self) 0 in
  if Search.checkIndex (Search.model self) ix
  then modify (Search.setCurrentIndex ix)
  else mret tt.

(** [open_current_thread]: the thread id handed to [app.thread], if the
    call is made. *)
Definition open_current_thread (self : Search.SearchPanel) : option string :=
  match Search.thread_id (Search.model self) (Search.tree_current self) with
  | Some t => if String.eqb t "" then None else Some t
  | None => None
  end.

End SearchViews.

(** ** compose.py, the constructor of the view *)

Module ComposeInit.

(** [s.upper()] on the ASCII letters.  It is only compared with ["RE:"],
    and no character outside ASCII has [R], [E] or [:] as its upper case. *)
Definition upper_char (c : ascii) : ascii :=
  let n := nat_of_ascii c in
  if ((97 <=? n) && (n <=? 122))%nat then ascii_of_nat (n - 32) else c.
Fixpoint upper (s : string) : string :=
  match s with
  | EmptyString => EmptyString
  | String c s' => String (upper_char c) (upper s')
  end.

(** Lines 119 and 120: the subject of a reply. *)
Definition reply_subject (subject : string) : string :=
  if negb (String.eqb (upper (String.substring 0 3 subject)) "RE:")
  then "RE: " +:+ subject
  else subject.

(** [reply_to['headers']]. *)
Definition headers_getitem (reply_to : message) : res (gmap string string) :=
  match headers reply_to with
  | Some hs => Ok hs
  | None => Raise (KeyError "headers")
  end.

(** Lines 113 to 144 of [ComposeView.__init__]: the text of the draft.
    [email_address] is the setting of that name, [email_sep_split] is
    [re.compile('\s*[;,]\s*').split], and [quote_body_text] is the helper of
    the util module. *)
Definition draft_text (email_address : string) (email_sep_split : string -> list string)
    (quote_body_text : message -> string)
    (reply_to : option message) (reply_to_all : bool) : res string :=
  '(to, cc, subject) ←
    match reply_to with
    | Some original =>
        hs ← headers_getitem original;
        let subject :=
          match hs !! "Subject" with
          | Some subject => reply_subject subject
          | None => ""
          end in
        let to := default "" (hs !! "From") in
        let cc :=
          if reply_to_all
          then match hs !! "To" with Some v => email_sep_split v | None => [] end
               ++ match hs !! "Cc" with Some v => email_sep_split v | None => [] end
          else [] in
        Ok (to, cc, subject)
    | None => Ok ("", [], "")
    end;
  let nl := String LF "" in
  let message_string := "From: " +:+ email_address +:+ nl +:+ "To: " +:+ to +:+ nl in
  let message_string :=
    if negb (length cc =? 0)%nat
    then message_string +:+ "Cc: " +:+ String.concat "; " cc +:+ nl
    else message_string in
  let message_string := message_string +:+ "Subject: " +:+ subject +:+ nl in
  let message_string :=
    match reply_to with
    | Some original =>
        match id original with
        | Some i => message_string +:+ "In-Reply-To: <" +:+ i +:+ ">" +:+ nl
        | None => message_string
        end
    | None => message_string
    end in
  let message_string := message_string +:+ nl +:+ nl in
  Ok match reply_to with
     | Some original => message_string +:+ nl +:+ quote_body_text original
     | None => message_string
     end.

(** [ComposeView.__init__]. *)
Definition ComposeView_new (E : env) (email_address : string)
    (email_sep_split : string -> list string) (quote_body_text : message -> string)
    (reply_to : option message) (reply_to_all : bool) : res ComposeView :=
  draft ← draft_text email_address email_sep_split quote_body_text reply_to reply_to_all;
  Ok (ComposeView_init E draft reply_to).

End ComposeInit.

(** ** Specification-side definitions for the flattener *)

(** The leaves of a tree, depth first and left to right. *)
Fixpoint leaves (x : node) : list node :=
  match x with
  | Seq ys => flat_map leaves ys
  | _ => [x]
  end.

(** The number of leaves of a tree. *)
Fixpoint leaf_count (x : node) : nat :=
  match x with
  | Seq ys => list_sum (map leaf_count ys)
  | _ => 1%nat
  end.

Definition as_message (x : node) : option message :=
  match x with Msg m => Some m | _ => None end.

(** Every leaf is a message record. *)
Definition message_tree (d : node) : Prop :=
  Forall (fun x => is_Some (as_message x)) (leaves d).

(** A leaf that is neither a message record nor a sequence of nodes. *)
Definition malformed (x : node) : Prop :=
  match x with Atom _ => True | _ => False end.

(** The message records at the leaves, in traversal order. *)
Definition leaf_messages (d : node) : list message := omap as_message (leaves d).

(** Non-decreasing timestamps. *)
Definition by_timestamp (m1 m2 : message) : Prop := timestamp m1 <= timestamp m2.

(** The messages of [l] that carry timestamp [t], in the order of [l]. *)
Definition with_timestamp (t : Z) (l : list message) : list message :=
  filter (fun m => timestamp m = t) l.

(** The tag command issued for an expression and a target term. *)
Definition tag_command (tag_expr target : string) : effect :=
  Subprocess (["notmuch"; "tag"] ++ split tag_expr ++ ["--"; target]).

(** An expression that starts with a sign, and one with a sign anywhere. *)
Definition sign_prefixed (tag_expr : string) : bool :=
  match tag_expr with
  | String c _ => Ascii.eqb c "+" || Ascii.eqb c "-"
  | EmptyString => false
  end.
Definition sign_anywhere (tag_expr : string) : bool :=
  contains_char "+" tag_expr || contains_char "-" tag_expr.

(** The message's tag set contains "unread". *)
Definition unread (m : message) : Prop :=
  exists ts, tags m = Some ts /\ "unread" ∈ ts.

(** ** Sample data *)

Definition sample_message (i : string) (t : Z) (ts : list string) : message :=
  {| id := Some i; timestamp := t; headers := None; tags := Some ts |}.

Definition m_a : message := sample_message "a" 50 ["inbox"].
Definition m_b : message := sample_message "b" 20 ["inbox"; "unread"].
Definition m_c : message := sample_message "c" 50 ["unread"].
Definition m_e : message := sample_message "e" 10 [].

(** A reply tree with four messages, two of them with equal timestamps. *)
Definition sample_tree : node :=
  Seq [Seq [Msg m_a; Seq [Seq [Msg m_b; Seq []]; Seq [Msg m_c; Seq []]]]; Seq [Msg m_e; Seq []]].

(** The same thread with a stray string where a message should be. *)
Definition broken_tree : node :=
  Seq [Seq [Msg m_a; Seq [Atom (JStr "oops")]]; Seq [Msg m_e; Seq []]].

Definition sample_model : ThreadModel :=
  {| thread_id := "0000000000000001"; d := sample_tree; thread := [m_e; m_b; m_a; m_c] |}.

(** A panel showing the last of the four messages. *)
Definition sample_panel : ThreadPanel :=
  {| model := sample_model; current_message := 3; subject := "(no subject)";
     thread_list_current := Some 3 |}.

(** What the indexer shows for the thread once message [c] is gone. *)
Definition shrunk_tree : node :=
  Seq [Seq [Msg m_a; Seq [Seq [Msg m_b; Seq []]]]; Seq [Msg m_e; Seq []]].

Definition sample_row : Search.SearchRow :=
  {| Search.date_relative := "today"; Search.authors := "A"; Search.subject := "hi";
     Search.tags := ["inbox"; "unread"]; Search.thread := Some "0000000000000001" |}.

Definition sample_search : Search.SearchPanel :=
  {| Search.model := {| Search.q := "tag:inbox"; Search.d := [sample_row] |};
     Search.tree_current := Some 0 |}.

(** *** A sample world for compose sessions *)

(** A reading of [email.message_from_string] for drafts made of
    [Name: value] lines, an empty line, and the body. *)
Definition header_of_line (line : string) : string * string :=
  match split_on ":" line with
  | name :: rest =>
      let value := String.concat ":" rest in
      (name, match value with String " " v => v | _ => value end)
  | [] => (line, "")
  end.

Fixpoint parse_lines (lines : list string) (acc : list (string * string)) : Message :=
  match lines with
  | [] => {| fields := acc; payload := "" |}
  | line :: rest =>
      if String.eqb line ""
      then {| fields := acc; payload := String.concat (String LF "") rest |}
      else parse_lines rest (acc ++ [header_of_line line])
  end.

Definition sample_parse (text : string) : Message := parse_lines (split_on LF text) [].

Definition sample_render (eml : EmailMessage) : string :=
  String.concat "" (map (fun f => f.1 +:+ ": " +:+ f.2 +:+ String LF "") (eml_fields eml))
  +:+ String LF "" +:+ default "" (eml_content eml)
  +:+ String.concat "" (map (fun a => String LF "" +:+ "[" +:+ filename a +:+ "]")
                            (eml_attachments eml)).

Definition sample_basename (path : string) : string := List.last (split_on "/" path) "".

(** A world in which the agent accepts the message after one second, the
    editor saves the file unchanged, and only [/home/me/notes.txt] can be
    read. *)
Definition sample_env : env :=
  {| message_from_string := sample_parse;
     setitem := fun eml name value =>
       Ok {| eml_fields := eml_fields eml ++ [(name, value)];
             eml_content := eml_content eml;
             eml_attachments := eml_attachments eml |};
     as_string := sample_render;
     guess_type := fun path => if String.eqb path "/home/me/notes.txt"
                               then Some "text/plain" else None;
     formatdate := "Tue, 03 Nov 2026 09:00:00 +0100";
     expanduser := fun path => path;
     basename := sample_basename;
     mkstemp := "/tmp/tmpk3x9.eml";
     editor_command := ["vim"];
     send_mail_command := ["msmtp"; "-t"];
     sent_dir := "/home/me/mail/sent";
     theme := fun key => "$" +:+ key;
     read_bytes := fun path => if String.eqb path "/home/me/notes.txt"
                               then Some "remember the milk" else None;
     editor := fun text => Exited 0 (Some text);
     sendmail_exit_after := Some 1%nat;
     sendmail_returncode := 0 |}.

(** The same world with another transfer agent, or another editor. *)
Definition with_sendmail (exit_after : option nat) (returncode : Z) (E : env) : env :=
  {| message_from_string := message_from_string E; setitem := setitem E;
     as_string := as_string E; guess_type := guess_type E; formatdate := formatdate E;
     expanduser := expanduser E; basename := basename E; mkstemp := mkstemp E;
     editor_command := editor_command E; send_mail_command := send_mail_command E;
     sent_dir := sent_dir E; theme := theme E; read_bytes := read_bytes E;
     editor := editor E;
     sendmail_exit_after := exit_after; sendmail_returncode := returncode |}.
Definition with_editor (ed : string -> editor_result) (E : env) : env :=
  {| message_from_string := message_from_string E; setitem := setitem E;
     as_string := as_string E; guess_type := guess_type E; formatdate := formatdate E;
     expanduser := expanduser E; basename := basename E; mkstemp := mkstemp E;
     editor_command := editor_command E; send_mail_command := send_mail_command E;
     sent_dir := sent_dir E; theme := theme E; read_bytes := read_bytes E;
     editor := ed;
     sendmail_exit_after := sendmail_exit_after E;
     sendmail_returncode := sendmail_returncode E |}.

Definition plain_draft : string :=
  "From: a@x
To: b@x
Subject: hi


body".

Definition draft_with_missing_attachment : string :=
  "From: a@x
To: b@x
Subject: hi
A: /nonexistent/file


body".

(** The view of a session whose [send] has just been called. *)
Definition sending_view (E : env) (draft : string) (reply_to : option message) : ComposeView :=
  self (exec (send E) (ComposeView_init E draft reply_to)).1.

(** Counting effects of one kind in a trace. *)
Definition count_effects (p : effect -> bool) (t : list effect) : nat :=
  length (List.filter p t).
Definition is_send_start (e : effect) : bool :=
  match e with ThreadStart cls => String.eqb cls "SendmailThread" | _ => false end.
Definition is_popen (e : effect) : bool :=
  match e with Popen _ => true | _ => false end.
Definition is_maildir_add (e : effect) : bool :=
  match e with MaildirAdd _ _ _ => true | _ => false end.
Definition is_print (e : effect) : bool :=
  match e with Print _ => true | _ => false end.
Definition is_tag_command (e : effect) : bool :=
  match e with
  | Subprocess ("notmuch" :: "tag" :: _) => true
  | _ => false
  end.

(** The Maildir info letters for "replied" and "seen". *)
Definition flag_replied : ascii := "R"%char.
Definition flag_seen : ascii := "S"%char.

(** The effects of handing an assembled message to the transfer agent, and
    the state in which a run that got that far ends: the status is set and
    the view refreshed. *)
Definition sendmail_effects (E : env) (eml : EmailMessage) : list effect :=
  [Popen (send_mail_command E); StdinWrite (as_string E eml); StdinClose; Wait 30].

Definition finished_with (E : env) (view : ComposeView) (colour label : string)
    (effects : list effect) : state ComposeView :=
  let view' := set_status (status_markup (theme E colour) label) view in
  State view' (effects ++ [Done; SetHtml (status view') (message_string view')]).

(** The trace of a session, against the state of the send handle: no send
    was started while the handle is unset, exactly one once it is set, and
    the agent is started only by that one thread. *)
Definition send_invariant (s : state ComposeView) : Prop :=
  match sendmail_thread (self s) with
  | None =>
      count_effects is_send_start (trace s) = 0%nat /\ count_effects is_popen (trace s) = 0%nat
  | Some Running =>
      count_effects is_send_start (trace s) = 1%nat /\ count_effects is_popen (trace s) = 0%nat
  | Some Finished =>
      count_effects is_send_start (trace s) = 1%nat /\ (count_effects is_popen (trace s) <= 1)%nat
  end.

(** A message with an HTML body and one embedded image. *)
Definition sample_mime : ThreadViews.mime :=
  ThreadViews.Part [("Content-Type", "multipart/related")] "multipart/related" None
    [ThreadViews.Part [("Content-Type", "text/html")] "text/html" (Some "<img src=cid:logo>") [];
     ThreadViews.Part [("Content-Type", "image/png"); ("Content-ID", "<logo>")] "image/png"
       (Some "PNG...") []].

(** The tree view's current index is the invalid one or a row of the
    model. *)
Definition selection_valid (panel : Search.SearchPanel) : Prop :=
  match Search.tree_current panel with
  | None => True
  | Some r => 0 <= r < Search.num_threads (Search.model panel)
  end.

Definition second_row : Search.SearchRow :=
  {| Search.date_relative := "yesterday"; Search.authors := "B"; Search.subject := "re: hi";
     Search.tags := ["inbox"]; Search.thread := Some "0000000000000002" |}.

(** A search panel with two rows, the first one selected. *)
Definition two_rows : Search.SearchPanel :=
  {| Search.model := {| Search.q := "tag:inbox"; Search.d := [sample_row; second_row] |};
     Search.tree_current := Some 0 |}.

Definition sample_settings : Settings.settings :=
  {| Settings.search_font := "DejaVu Sans Mono"; Settings.search_font_size := 13;
     Settings.theme := {[ "fg" := "#d8dee9"; "fg_subject_unread" := "#ffffff" ]};
     Settings.tag_icons := {[ "inbox" := "I" ]};
     Settings.html_block_remote_requests := true;
     Settings.email_address := "me@x" |}.

(** What [eml[name] = value] does when it does not raise: it appends the
    field and touches nothing else. *)
Definition appends (E : env) : Prop :=
  forall eml name value eml',
    setitem E eml name value = Ok eml' ->
    eml' = {| eml_fields := eml_fields eml ++ [(name, value)];
              eml_content := eml_content eml;
              eml_attachments := eml_attachments eml |}.

(** The part that [attach] adds for the attachment [att] with content
    [bytes]. *)
Definition part_of (E : env) (att bytes : string) : Attachment :=
  {| data := bytes;
     maintype := nth 0 (attachment_type E att) "";
     subtype := nth 1 (attachment_type E att) "";
     filename := basename E att |}.

(** The header names of a parsed draft, and how often the pseudo-header of
    attachments occurs among them. *)
Definition header_names (m : Message) : list string := fst <$> fields m.
Definition attachment_headers (m : Message) : nat :=
  length (filter (fun h => h = "A") (header_names m)).

(** The fields that [copy_headers] hands on: every name but "A", each with
    the value [m[name]] finds. *)
Definition transmitted (m : Message) : list (string * string) :=
  (fun h => (h, default "" (Message_getitem (fields m) h)))
    <$> filter (fun h => h <> "A") (header_names m).

Definition draft_with_two_attachments : string :=
  "To: b@x
A: /home/me/notes.txt
A: /nonexistent/file

see attached".

Definition is_editor_start (e : effect) : bool :=
  match e with ThreadStart cls => String.eqb cls "EditorThread" | _ => false end.
Definition is_write_file (e : effect) : bool :=
  match e with WriteFile _ _ => true | _ => false end.

(** Every started editor thread has run, except the one the handle holds. *)
Definition editor_invariant (s : state ComposeView) : Prop :=
  count_effects is_editor_start (trace s)
  = (count_effects is_write_file (trace s)
     + match editor_thread (self s) with Some _ => 1 | None => 0 end)%nat
  /\ editor_thread (self s) <> Some Finished.

(** A message as [notmuch show] would print it without its identifier. *)
Definition sample_original : message :=
  {| id := None; timestamp := 50;
     headers := Some {[ "Subject" := "re: plans"; "From" := "b@x" ]};
     tags := Some ["inbox"] |}.

(** A file saved with DOS and old Mac line ends. *)
Definition dos_file : string :=
  String "T" (String "o" (String CR (String LF (String "b" (String CR "c"))))).

(** * Theorems *)

(** Unfold the plumbing of the state-and-exception monad. *)
Ltac run :=
  cbv [exec mbind mret M_bind M_ret bind ret get emit lift modify zoom raise
       try_finally try_except];
  cbn [self trace].

(** ** Induction over thread trees *)

Lemma node_ind_Forall (P : node -> Prop)
  (HMsg : forall m, P (Msg m))
  (HSeq : forall ys, Forall P ys -> P (Seq ys))
  (HAtom : forall a, P (Atom a)) :
  forall x, P x.
Proof.
  fix IH 1. intros [m | ys | a].
  - apply HMsg.
  - apply HSeq. induction ys as [| y ys IHys]; constructor; [apply IH | exact IHys].
  - apply HAtom.
Qed.

(** ** The stable sort *)

Section SortKey.
Context {A : Type} (key : A -> Z).

Let le_key (x y : A) : Prop := key x <= key y.

Lemma insert_key_length x l : length (insert_key key x l) = S (length l).
Proof.
  induction l as [| y l IH]; simpl; [done |].
  destruct (key x <=? key y); simpl; [done | by rewrite IH].
Qed.

Lemma sort_key_length l : length (sort_key key l) = length l.
Proof.
  induction l as [| x l IH]; simpl; [done |].
  by rewrite insert_key_length, IH.
Qed.

Lemma insert_key_Permutation x l : insert_key key x l ≡ₚ x :: l.
Proof.
  induction l as [| y l IH]; simpl; [done |].
  destruct (key x <=? key y); [done |].
  rewrite IH. apply Permutation_swap.
Qed.

Lemma sort_key_Permutation l : sort_key key l ≡ₚ l.
Proof.
  induction l as [| x l IH]; simpl; [done |].
  by rewrite insert_key_Permutation, IH.
Qed.

Lemma insert_key_Sorted x l :
  Sorted le_key l -> Sorted le_key (insert_key key x l).
Proof.
  induction 1 as [| y l Hs IH Hhd]; simpl.
  - repeat constructor.
  - destruct (Z.leb_spec (key x) (key y)) as [Hle | Hgt].
    + constructor; [by constructor | by constructor].
    + constructor; [exact IH |].
      destruct Hhd as [| z l Hyz]; simpl.
      * constructor. unfold le_key. lia.
      * destruct (key x <=? key z); constructor; unfold le_key in *; lia.
Qed.

Lemma sort_key_Sorted l : Sorted le_key (sort_key key l).
Proof.
  induction l as [| x l IH]; simpl; [constructor | by apply insert_key_Sorted].
Qed.

(** Inserting [x] puts it in front of the elements that share its key and
    leaves the elements of every other key in place. *)
Lemma insert_key_filter x l (k : Z) :
  Sorted le_key l ->
  filter (fun y => key y = k) (insert_key key x l)
  = filter (fun y => key y = k) (x :: l).
Proof.
  induction 1 as [| y l Hs IH Hhd]; simpl; [done |].
  destruct (Z.leb_spec (key x) (key y)) as [Hle | Hgt]; [done |].
  rewrite (filter_cons _ y), IH, !filter_cons.
  repeat case_decide; try done; lia.
Qed.

Lemma sort_key_stable l (k : Z) :
  filter (fun y => key y = k) (sort_key key l) = filter (fun y => key y = k) l.
Proof.
  induction l as [| x l IH]; simpl; [done |].
  rewrite insert_key_filter by apply sort_key_Sorted.
  by rewrite !filter_cons, IH.
Qed.


(** A sorted list is determined by its per-key subsequences: whatever
    stable sorting algorithm the runtime uses returns the list that
    [sort_key] returns. *)
Lemma stable_sorted_unique l1 l2 :
  Sorted le_key l1 -> Sorted le_key l2 ->
  (forall k, filter (fun y => key y = k) l1 = filter (fun y => key y = k) l2) ->
  l1 = l2.
Proof.
  intros Hs1%Sorted_StronglySorted; [| intros ???; unfold le_key; lia].
  intros Hs2%Sorted_StronglySorted; [| intros ???; unfold le_key; lia].
  revert l2 Hs2.
  induction Hs1 as [| x l1 Hs1 IH Hx]; intros l2 Hs2 Hf.
  - destruct l2 as [| y l2]; [done |].
    specialize (Hf (key y)). rewrite filter_cons in Hf.
    by case_decide.
  - destruct Hs2 as [| y l2 Hs2 Hy].
    + specialize (Hf (key x)). rewrite filter_cons in Hf. by case_decide.
    + assert (key y <= key x) as Hyx.
      { assert (x ∈ filter (fun z => key z = key x) (y :: l2))
          as [_ [-> | Hin]%elem_of_cons]%list_elem_of_filter; [| lia |].
        - rewrite <- Hf, filter_cons. case_decide; [apply list_elem_of_here | congruence].
        - rewrite Forall_forall in Hy. by apply Hy. }
      assert (key x <= key y) as Hxy.
      { assert (y ∈ filter (fun z => key z = key y) (x :: l1))
          as [_ [-> | Hin]%elem_of_cons]%list_elem_of_filter; [| lia |].
        - rewrite Hf, filter_cons. case_decide; [apply list_elem_of_here | congruence].
        - rewrite Forall_forall in Hx. by apply Hx. }
      pose proof (Hf (key x)) as Hfx. rewrite !filter_cons in Hfx.
      repeat case_decide; try lia. injection Hfx as -> Hfx.
      f_equal. apply IH; [done |]. intros k. specialize (Hf k).
      rewrite !filter_cons in Hf. by case_decide; simplify_eq.
Qed.

(** Hence: any result that is sorted by key and keeps, for every key, the
    elements of that key in their input order is the result of
    [sort_key]. *)
Lemma sort_key_characterised l l' :
  Sorted le_key l' ->
  (forall k, filter (fun y => key y = k) l' = filter (fun y => key y = k) l) ->
  l' = sort_key key l.
Proof.
  intros Hs Hf. apply stable_sorted_unique; [done | apply sort_key_Sorted |].
  intros k. by rewrite sort_key_stable.
Qed.

End SortKey.

(** ** The flattener *)

Lemma dfs_leaves (x : node) : forall thread, dfs x thread = thread ++ leaves x.
Proof.
  induction x as [m | ys IH | a] using node_ind_Forall; intros thread; simpl; try done.
  revert thread. induction IH as [| y ys Hy _ IHys]; intros thread; simpl.
  - by rewrite app_nil_r.
  - by rewrite Hy, IHys, app_assoc.
Qed.

Lemma leaf_count_leaves (x : node) : leaf_count x = length (leaves x).
Proof.
  induction x as [m | ys IH | a] using node_ind_Forall; simpl; try done.
  induction IH as [| y ys Hy _ IHys]; simpl; [done |].
  by rewrite length_app, Hy, IHys.
Qed.

Lemma mapM_subscript_messages (ms : list message) :
  mapM subscript_timestamp (Msg <$> ms) = Ok ms.
Proof.
  induction ms as [| m ms IH]; [done |].
  change (mapM subscript_timestamp (Msg <$> m :: ms))
    with (ms' ← mapM subscript_timestamp (Msg <$> ms); Ok (m :: ms')).
  by rewrite IH.
Qed.

Lemma message_leaves (l : list node) :
  Forall (fun x => is_Some (as_message x)) l -> l = Msg <$> omap as_message l.
Proof.
  induction 1 as [| x l [m Hm] _ IH]; [done |].
  destruct x; simplify_eq/=. by rewrite <- IH.
Qed.

Lemma mapM_subscript_malformed (l : list node) :
  Exists (fun x => as_message x = None) l ->
  mapM subscript_timestamp l = Raise TypeError.
Proof.
  induction l as [| x l IH]; intros Hex; [by apply Exists_nil in Hex |].
  change (mapM subscript_timestamp (x :: l))
    with (m ← subscript_timestamp x; ms ← mapM subscript_timestamp l; Ok (m :: ms)).
  destruct x as [m | ys | a]; try done.
  apply Exists_cons in Hex as [Hx | Hl]; [done |].
  by rewrite IH.
Qed.

(** C1. On a tree whose leaves are all message records, [flat_thread]
    returns a list with one entry per leaf: the leaves collected depth
    first and left to right, then stably sorted by timestamp.  The result
    is a permutation of the leaves with non-decreasing timestamps, and for
    every timestamp the messages carrying it keep their traversal order. *)
Theorem flat_thread_sorted_stable (d : node) :
  message_tree d ->
  exists thread,
    flat_thread d = Ok thread
    /\ leaves d = Msg <$> leaf_messages d
    /\ thread = sort_key timestamp (leaf_messages d)
    /\ length thread = leaf_count d
    /\ thread ≡ₚ leaf_messages d
    /\ Sorted by_timestamp thread
    /\ forall t, with_timestamp t thread = with_timestamp t (leaf_messages d).
Proof.
  intros Hd. pose proof (message_leaves _ Hd) as Hl.
  exists (sort_key timestamp (leaf_messages d)).
  split; [| split; [exact Hl | split; [reflexivity |]]].
  - unfold flat_thread. rewrite dfs_leaves, app_nil_l, Hl.
    unfold leaf_messages at 1. rewrite <- Hl.
    fold (leaf_messages d). rewrite Hl at 1.
    by rewrite mapM_subscript_messages.
  - split; [| split; [| split]].
    + rewrite sort_key_length, leaf_count_leaves, Hl at 1.
      by rewrite !length_fmap.
    + apply sort_key_Permutation.
    + apply (sort_key_Sorted timestamp).
    + intros t. apply (sort_key_stable timestamp).
Qed.

Lemma flat_thread_sorted_stable_witness :
  message_tree sample_tree
  /\ flat_thread sample_tree = Ok [m_e; m_b; m_a; m_c]
  /\ leaf_count sample_tree = 4%nat.
Proof.
  assert (message_tree sample_tree) as Hd.
  { unfold message_tree. simpl. repeat constructor; eexists; reflexivity. }
  split; [exact Hd |].
  destruct (flat_thread_sorted_stable sample_tree Hd) as (thread & Hflat & _ & Hsort & _).
  split; [rewrite Hflat, Hsort; reflexivity | reflexivity].
Defined.



(** ** The default selection *)

Lemma is_unread_spec (m : message) : is_unread m = true <-> unread m.
Proof.
  unfold is_unread, unread. destruct (tags m) as [ts |].
  - rewrite bool_decide_eq_true. split; [by exists ts | by intros (? & [= <-] & ?)].
  - split; [done | by intros (? & ? & ?)].
Qed.

Lemma default_message_loop_spec (l : list message) : forall i0,
  match default_message_loop i0 l with
  | Some r =>
      exists (n : nat) m, r = i0 + Z.of_nat n /\ l !! n = Some m /\ is_unread m = true
        /\ forall (j : nat) m', (j < n)%nat -> l !! j = Some m' -> is_unread m' = false
  | None => Forall (fun m => is_unread m = false) l
  end.
Proof.
  induction l as [| m l IH]; intros i0; simpl; [constructor |].
  destruct (is_unread m) eqn:Hm.
  - exists 0%nat, m. repeat split; [lia | done | lia].
  - specialize (IH (i0 + 1)). destruct (default_message_loop (i0 + 1) l) as [r |].
    + destruct IH as (n & m' & -> & Hl & Hu & Hbefore).
      exists (S n), m'. repeat split; [lia | done | done |].
      intros [| j] m'' Hj Hl'; simplify_eq/=; [done |].
      eapply Hbefore; [| done]. lia.
    + by constructor.
Qed.

(** C8. [default_message] returns the index of the first message whose tag
    set contains "unread" when there is one, the index of the last message
    otherwise, and -1 on an empty thread. *)
Theorem default_message_first_unread (tm : ThreadModel) :
  (forall (i : nat) m,
      thread tm !! i = Some m -> unread m ->
      (forall (j : nat) m', (j < i)%nat -> thread tm !! j = Some m' -> ~ unread m') ->
      default_message tm = Z.of_nat i)
  /\ ((forall m, m ∈ thread tm -> ~ unread m) ->
      default_message tm = Z.of_nat (length (thread tm)) - 1)
  /\ (thread tm = [] -> default_message tm = -1).
Proof.
  unfold default_message, num_messages.
  pose proof (default_message_loop_spec (thread tm) 0) as Hloop.
  split; [| split].
  - intros i m Hi Hm Hbefore.
    destruct (default_message_loop 0 (thread tm)) as [r |].
    + destruct Hloop as (n & m0 & -> & Hn & Hu & Hfirst).
      destruct (Nat.lt_trichotomy n i) as [Hlt | [-> | Hgt]]; [| lia |].
      * exfalso. apply (Hbefore n m0 Hlt Hn). by apply is_unread_spec.
      * exfalso. apply is_unread_spec in Hm. by rewrite (Hfirst i m Hgt Hi) in Hm.
    + exfalso. rewrite Forall_forall in Hloop.
      apply is_unread_spec in Hm. rewrite Hloop in Hm; [done |].
      by eapply list_elem_of_lookup_2.
  - intros Hnone.
    destruct (default_message_loop 0 (thread tm)) as [r |]; [| done].
    destruct Hloop as (n & m0 & -> & Hn & Hu & _).
    exfalso. apply (Hnone m0); [by eapply list_elem_of_lookup_2 | by apply is_unread_spec].
  - intros Hnil. by rewrite Hnil.
Qed.

Example default_message_sample : default_message sample_model = 1.
Proof. reflexivity. Qed.

(** ** Selection across a refresh *)

Lemma getitem_in_range {A} (l : list A) (i : Z) :
  0 <= i < Z.of_nat (length l) -> exists x, getitem l i = Ok x /\ l !! Z.to_nat i = Some x.
Proof.
  intros Hi. unfold getitem.
  destruct (Z.ltb_spec i 0); [lia |].
  destruct (Z.leb_spec 0 i); [| lia]. destruct (Z.ltb_spec i (Z.of_nat (length l))); [| lia].
  simpl. destruct (lookup_lt_is_Some_2 l (Z.to_nat i)) as [x Hx]; [lia |].
  exists x. by rewrite Hx.
Qed.

Lemma getitem_too_large {A} (l : list A) (i : Z) :
  Z.of_nat (length l) <= i -> getitem l i = Raise IndexError.
Proof.
  intros Hi. unfold getitem.
  destruct (Z.ltb_spec i 0); [lia |].
  destruct (Z.leb_spec 0 i); [| lia]. by destruct (Z.ltb_spec i (Z.of_nat (length l))); [lia |].
Qed.

(** When the selected index is still inside the refreshed thread,
    [ThreadPanel.refresh] returns and keeps it, in the panel and in the list
    view. *)
Lemma ThreadPanel_refresh_keeps_valid_index (panel : ThreadPanel) (d : node)
    (thread' : list message) (t : list effect) :
  flat_thread d = Ok thread' ->
  0 <= current_message panel < Z.of_nat (length thread') ->
  let out := ThreadPanel_refresh (Ok d) (State panel t) in
  out.2 = Ok tt
  /\ thread (model (self out.1)) = thread'
  /\ current_message (self out.1) = current_message panel
  /\ thread_list_current (self out.1) = Some (current_message panel).
Proof.
  intros Hflat Hi. unfold ThreadPanel_refresh, ThreadModel_refresh. run. rewrite Hflat.
  cbn. unfold index, checkIndex, Qt.checkIndex, Qt.hasIndex, num_messages, message_at. cbn.
  destruct (Z.leb_spec 0 (current_message panel)); [| lia].
  destruct (Z.ltb_spec (current_message panel) (Z.of_nat (length thread'))); [| lia].
  cbn. destruct (Z.leb_spec 0 (current_message panel)); [| lia].
  destruct (Z.ltb_spec (current_message panel) (Z.of_nat (length thread'))); [| lia].
  cbn. destruct (getitem_in_range thread' (current_message panel) Hi) as (m & -> & _).
  done.
Qed.

(** When the thread has shrunk below the selected index, nothing clamps
    it: the list view loses its current index, [message_at] raises
    IndexError, and [current_message] still points past the end. *)
Lemma ThreadPanel_refresh_stale_index (panel : ThreadPanel) (d : node)
    (thread' : list message) (t : list effect) :
  flat_thread d = Ok thread' ->
  Z.of_nat (length thread') <= current_message panel ->
  let out := ThreadPanel_refresh (Ok d) (State panel t) in
  out.2 = Raise IndexError
  /\ thread (model (self out.1)) = thread'
  /\ current_message (self out.1) = current_message panel
  /\ thread_list_current (self out.1) = None.
Proof.
  intros Hflat Hi. unfold ThreadPanel_refresh, ThreadModel_refresh. run. rewrite Hflat.
  cbn. unfold index, checkIndex, Qt.checkIndex, Qt.hasIndex, num_messages, message_at. cbn.
  destruct (Z.leb_spec 0 (current_message panel)); [| lia].
  destruct (Z.ltb_spec (current_message panel) (Z.of_nat (length thread'))); [lia |].
  cbn. by rewrite getitem_too_large.
Qed.

Lemma ThreadPanel_refresh_keeps_valid_index_witness :
  (exec (ThreadPanel_refresh (Ok sample_tree)) sample_panel).2 = Ok tt
  /\ current_message (self (exec (ThreadPanel_refresh (Ok sample_tree)) sample_panel).1) = 3
  /\ thread_list_current (self (exec (ThreadPanel_refresh (Ok sample_tree)) sample_panel).1)
     = Some 3.
Proof.
  assert (0 <= current_message sample_panel < Z.of_nat (length [m_e; m_b; m_a; m_c]))
    as Hi by (simpl; lia).
  destruct (ThreadPanel_refresh_keeps_valid_index sample_panel sample_tree
              [m_e; m_b; m_a; m_c] [] eq_refl Hi) as (Hok & _ & Hcur & Hview).
  split; [exact Hok | split; [exact Hcur | exact Hview]].
Defined.

(** C4, evaluated where it fails: the panel shows the fourth message of a
    thread, the indexer then reports three messages, and the refresh ends in
    IndexError with the selection left at index 3 of a three-message
    thread. *)
Theorem ThreadPanel_refresh_shrunk_thread :
  let out := exec (ThreadPanel_refresh (Ok shrunk_tree)) sample_panel in
  out.2 = Raise IndexError
  /\ thread (model (self out.1)) = [m_e; m_b; m_a]
  /\ current_message (self out.1) = 3
  /\ num_messages (model (self out.1)) = 3
  /\ thread_list_current (self out.1) = None.
Proof. vm_compute. repeat split. Qed.

(** The sibling in search.py does what the thread panel omits: after a
    refresh that leaves fewer rows than the selected one, the selection moves
    to the last row. *)
Lemma SearchPanel_refresh_clamps (panel : Search.SearchPanel)
    (rows : list Search.SearchRow) (t : list effect) :
  rows <> [] ->
  Z.of_nat (length rows) <= Qt.row (Search.tree_current panel) ->
  let out := Search.SearchPanel_refresh (Ok rows) (State panel t) in
  out.2 = Ok tt
  /\ Search.d (Search.model (self out.1)) = rows
  /\ Search.tree_current (self out.1) = Some (Z.of_nat (length rows) - 1).
Proof.
  intros Hne Hi. unfold Search.SearchPanel_refresh, Search.SearchModel_refresh. run. cbn.
  unfold Search.num_threads. cbn.
  destruct (Z.geb_spec (Qt.row (Search.tree_current panel)) (Z.of_nat (length rows))); [| lia].
  unfold Search.last_thread. run. cbn.
  unfold Search.index, Search.checkIndex, Qt.checkIndex, Qt.hasIndex, Search.num_threads. cbn.
  assert (0 < Z.of_nat (length rows)) by (destruct rows; [done | simpl; lia]).
  destruct (Z.leb_spec 0 (Z.of_nat (length rows) - 1)); [| lia].
  destruct (Z.ltb_spec (Z.of_nat (length rows) - 1) (Z.of_nat (length rows))); [| lia].
  cbn. destruct (Z.leb_spec 0 (Z.of_nat (length rows) - 1)); [| lia].
  destruct (Z.ltb_spec (Z.of_nat (length rows) - 1) (Z.of_nat (length rows))); [| lia].
  done.
Qed.

(** A search panel whose third row is selected. *)
Lemma SearchPanel_refresh_clamps_witness :
  Search.tree_current
    (self (Search.SearchPanel_refresh (Ok [sample_row])
             (State {| Search.model :=
                         {| Search.q := "tag:inbox";
                            Search.d := [sample_row; sample_row; sample_row] |};
                       Search.tree_current := Some 2 |} [])).1)
  = Some 0.
Proof.
  assert ([sample_row] <> []) as Hne by discriminate.
  assert (Z.of_nat (length [sample_row]) <= 2) as Hi by (simpl; lia).
  destruct (SearchPanel_refresh_clamps
              {| Search.model :=
                   {| Search.q := "tag:inbox";
                      Search.d := [sample_row; sample_row; sample_row] |};
                 Search.tree_current := Some 2 |} [sample_row] [] Hne Hi)
    as (_ & _ & Hsel).
  exact Hsel.
Defined.

(** ** Tag expressions *)

Lemma ThreadPanel_refresh_trace (shown : res node) (s : state ThreadPanel) :
  trace (ThreadPanel_refresh shown s).1
  = trace s ++ [Subprocess ["notmuch"; "show"; "--format=json"; "--include-html";
                            thread_id (model (self s))]].
Proof.
  unfold ThreadPanel_refresh, ThreadModel_refresh. run.
  destruct s as [panel t]. cbn.
  repeat (case_match; simplify_eq/=); done.
Qed.

Lemma SearchPanel_refresh_trace (found : res (list Search.SearchRow))
    (s : state Search.SearchPanel) :
  trace (Search.SearchPanel_refresh found s).1
  = trace s ++ [Subprocess ["notmuch"; "search"; "--format=json";
                            Search.q (Search.model (self s))]].
Proof.
  unfold Search.SearchPanel_refresh, Search.SearchModel_refresh, Search.last_thread. run.
  destruct s as [panel t]. cbn.
  repeat (case_match; simplify_eq/=); done.
Qed.

Lemma sign_anywhere_signed (sign : bool) (tag : string) :
  sign_anywhere ((if sign then "-" else "+") +:+ tag) = true.
Proof. destruct sign; unfold sign_anywhere; cbn; [apply orb_true_r | reflexivity]. Qed.

Lemma tag_message_trace (tag_expr : string) (shown : res node) (panel : ThreadPanel)
    (m : message) (i : string) :
  message_at (model panel) (current_message panel) = Ok m -> id m = Some i ->
  take 2 (trace (exec (tag_message tag_expr shown) panel).1)
  = [tag_command (if sign_anywhere tag_expr then tag_expr else "+" +:+ tag_expr)
       ("id:" +:+ i); InvalidatePanels].
Proof.
  intros Hm Hi. unfold tag_message. run. rewrite Hm, Hi. cbn -[split String.append].
  rewrite ThreadPanel_refresh_trace. cbn -[split String.append].
  unfold sign_anywhere, tag_command. by destruct (_ || _).
Qed.

Lemma tag_thread_trace (tag_expr : string) (found : res (list Search.SearchRow))
    (panel : Search.SearchPanel) (row : Search.SearchRow) (t : string) :
  Search.thread_json (Search.model panel) (Search.tree_current panel) = Some row ->
  Search.thread row = Some t -> t <> "" ->
  take 2 (trace (exec (Search.tag_thread tag_expr found) panel).1)
  = [tag_command (if sign_anywhere tag_expr then tag_expr else "+" +:+ tag_expr)
       ("thread:" +:+ t); InvalidatePanels].
Proof.
  intros Hrow Ht Hne. unfold Search.tag_thread, Search.thread_id. run.
  rewrite Hrow, Ht. apply String.eqb_neq in Hne. rewrite Hne. cbn -[split String.append].
  rewrite SearchPanel_refresh_trace. cbn -[split String.append].
  unfold sign_anywhere, tag_command. by destruct (_ || _).
Qed.

(** C5, as the code has it.  Toggling tag T on the current message or on
    the selected thread runs the indexer's tag command with "-T" when T is
    among the target's tags and with "+T" otherwise.  [tag_message] and
    [tag_thread] prepend "+" to an expression that contains neither "+" nor
    "-" anywhere, and pass on unchanged an expression that contains one of
    them at any position. *)
Theorem tag_expression_applied (tag tag_expr : string)
    (panel : ThreadPanel) (shown : res node) (m : message) (ts : list string) (i : string)
    (spanel : Search.SearchPanel) (found : res (list Search.SearchRow))
    (row : Search.SearchRow) (t : string) :
  message_at (model panel) (current_message panel) = Ok m ->
  tags m = Some ts ->
  id m = Some i ->
  Search.thread_json (Search.model spanel) (Search.tree_current spanel) = Some row ->
  Search.thread row = Some t ->
  t <> "" ->
  let toggled_m := (if bool_decide (tag ∈ ts) then "-" else "+") +:+ tag in
  let toggled_t := (if bool_decide (tag ∈ Search.tags row) then "-" else "+") +:+ tag in
  let normal := if sign_anywhere tag_expr then tag_expr else "+" +:+ tag_expr in
  take 2 (trace (exec (toggle_message_tag tag shown) panel).1)
    = [tag_command toggled_m ("id:" +:+ i); InvalidatePanels]
  /\ take 2 (trace (exec (tag_message tag_expr shown) panel).1)
    = [tag_command normal ("id:" +:+ i); InvalidatePanels]
  /\ take 2 (trace (exec (Search.toggle_thread_tag tag found) spanel).1)
    = [tag_command toggled_t ("thread:" +:+ t); InvalidatePanels]
  /\ take 2 (trace (exec (Search.tag_thread tag_expr found) spanel).1)
    = [tag_command normal ("thread:" +:+ t); InvalidatePanels].
Proof.
  intros Hm Hts Hi Hrow Ht Hne. cbv zeta. repeat split.
  - pose proof (tag_message_trace
                  ((if bool_decide (tag ∈ ts) then "-" else "+") +:+ tag) shown panel m i Hm Hi)
      as Htrace.
    rewrite sign_anywhere_signed in Htrace. rewrite <- Htrace.
    unfold toggle_message_tag, exec. run. rewrite Hm, Hts.
    by destruct (bool_decide (tag ∈ ts)).
  - by apply tag_message_trace with m.
  - pose proof (tag_thread_trace
                  ((if bool_decide (tag ∈ Search.tags row) then "-" else "+") +:+ tag)
                  found spanel row t Hrow Ht Hne) as Htrace.
    rewrite sign_anywhere_signed in Htrace. rewrite <- Htrace.
    unfold Search.toggle_thread_tag, exec. run. rewrite Hrow.
    by destruct (bool_decide (tag ∈ Search.tags row)).
  - by apply tag_thread_trace with row.
Qed.

Lemma tag_expression_applied_witness :
  take 2 (trace (exec (toggle_message_tag "unread" (Ok sample_tree)) sample_panel).1)
    = [Subprocess ["notmuch"; "tag"; "-unread"; "--"; "id:c"]; InvalidatePanels]
  /\ take 2 (trace (exec (Search.tag_thread "flagged" (Ok [sample_row])) sample_search).1)
    = [Subprocess ["notmuch"; "tag"; "+flagged"; "--"; "thread:0000000000000001"];
       InvalidatePanels].
Proof.
  assert ("0000000000000001" <> "") as Hne by discriminate.
  destruct (tag_expression_applied "unread" "flagged" sample_panel (Ok sample_tree)
              m_c ["unread"] "c" sample_search (Ok [sample_row]) sample_row
              "0000000000000001" eq_refl eq_refl eq_refl eq_refl eq_refl Hne)
    as (Htoggle & _ & _ & Htag).
  split; [exact Htoggle | exact Htag].
Defined.

(** C5 as stated fails: "to-do" has no sign in front, yet it reaches the
    indexer as it is, because it contains "-". *)
Lemma tag_message_sign_inside_counterexample :
  ~ (forall (tag_expr : string) (panel : ThreadPanel) (shown : res node)
            (m : message) (i : string),
        message_at (model panel) (current_message panel) = Ok m ->
        id m = Some i ->
        sign_prefixed tag_expr = false ->
        take 2 (trace (exec (tag_message tag_expr shown) panel).1)
        = [tag_command ("+" +:+ tag_expr) ("id:" +:+ i); InvalidatePanels]).
Proof.
  intros Hclaim.
  specialize (Hclaim "to-do" sample_panel (Ok sample_tree) m_c "c" eq_refl eq_refl eq_refl).
  vm_compute in Hclaim. discriminate Hclaim.
Qed.

Example tag_message_sign_inside :
  trace (exec (tag_message "to-do" (Ok sample_tree)) sample_panel).1
  = [Subprocess ["notmuch"; "tag"; "to-do"; "--"; "id:c"]; InvalidatePanels;
     Subprocess ["notmuch"; "show"; "--format=json"; "--include-html"; "0000000000000001"]].
Proof. reflexivity. Qed.

(** ** Sending *)

Example sample_parse_plain_draft :
  sample_parse plain_draft
  = {| fields := [("From", "a@x"); ("To", "b@x"); ("Subject", "hi")];
       payload := String LF "body" |}.
Proof. reflexivity. Qed.


Lemma SendmailThread_run_assembled (E : env) (view : ComposeView) (eml : EmailMessage) :
  assemble E (message_string view) = Ok eml ->
  exec (SendmailThread_run E) view
  = match wait E 30 with
    | Ok returncode =>
        if returncode =? 0
        then
          let stored := MaildirAdd (sent_dir E) (as_string E eml) "S" in
          let indexed := [Subprocess ["notmuch"; "new"]; InvalidatePanels] in
          match reply_to view with
          | None =>
              (finished_with E view "fg_good" "sent"
                 (sendmail_effects E eml ++ stored :: indexed), Ok tt)
          | Some original =>
              match id original with
              | Some i =>
                  (finished_with E view "fg_good" "sent"
                     (sendmail_effects E eml ++ stored
                        :: Subprocess ["notmuch"; "tag"; "+replied"; "--"; "id:" +:+ i]
                        :: indexed), Ok tt)
              | None =>
                  (State view (sendmail_effects E eml
                                 ++ [stored; Done;
                                     SetHtml (status view) (message_string view)]),
                   Raise (KeyError "id"))
              end
          end
        else (finished_with E view "fg_bad" "error" (sendmail_effects E eml), Ok tt)
    | Raise _ => (finished_with E view "fg_bad" "timed out" (sendmail_effects E eml), Ok tt)
    end.
Proof.
  intros Hasm. unfold SendmailThread_run, ComposeView_refresh, finished_with. run.
  rewrite Hasm. cbn -[status_markup].
  unfold wait. destruct (sendmail_exit_after E) as [t |]; [| done].
  destruct (t <=? 30)%nat; [| done]. cbn -[status_markup].
  destruct (sendmail_returncode E =? 0); [| done].
  destruct (reply_to view) as [original |]; [| done].
  by destruct (id original).
Qed.



Lemma attach_unreadable (E : env) (attachments : list string) (eml : EmailMessage) :
  Exists (fun att => read_bytes E (expanduser E att) = None) attachments ->
  attach E attachments eml = Raise (NameError "a").
Proof.
  revert eml. induction attachments as [| att atts IH]; intros eml Hex.
  - by apply Exists_nil in Hex.
  - simpl. destruct (read_bytes E (expanduser E att)) as [bytes |] eqn:Hread; [| done].
    apply IH. apply Exists_cons in Hex as [Hatt | Hatts]; [congruence | done].
Qed.

(** C2, evaluated where it fails: a draft whose attachment header names a
    file that cannot be read.  The handler of the read error raises
    NameError, nothing is printed, the transfer agent is never started, and
    the view stays at "sending". *)
Theorem SendmailThread_run_missing_attachment :
  let view := sending_view sample_env draft_with_missing_attachment None in
  let out := exec (SendmailThread_run sample_env) view in
  assemble sample_env draft_with_missing_attachment = Raise (NameError "a")
  /\ out.2 = Raise (NameError "a")
  /\ trace out.1 = [Done; SetHtml (status view) draft_with_missing_attachment]
  /\ count_effects is_print (trace out.1) = 0%nat
  /\ count_effects is_popen (trace out.1) = 0%nat
  /\ status (self out.1) = status_markup (theme sample_env "fg_bright") "sending".
Proof. vm_compute. repeat split. Qed.






(** ** Editing *)

Lemma universal_newlines_no_CR (text : string) :
  contains_char CR text = false -> universal_newlines text = text.
Proof.
  induction text as [| c text IH]; [done |].
  intros Htext. cbn [contains_char] in Htext. cbn [universal_newlines].
  destruct (Ascii.eqb_spec c CR) as [-> | Hne].
  - by rewrite Ascii.eqb_refl in Htext.
  - destruct (Ascii.eqb CR c); [done |]. by rewrite IH.
Qed.



Example editor_abnormal_exit :
  message_string
    (self (exec (EditorThread_run (with_editor (fun _ => Exited 1 (Some "From: a@x")) sample_env))
             (self (exec edit (ComposeView_init sample_env plain_draft None)).1)).1)
  = "From: a@x".
Proof. reflexivity. Qed.

(** ** One send per session *)

Lemma count_effects_app (p : effect -> bool) (t1 t2 : list effect) :
  count_effects p (t1 ++ t2) = (count_effects p t1 + count_effects p t2)%nat.
Proof. unfold count_effects. by rewrite List.filter_app, length_app. Qed.

Ltac count_trace :=
  cbn [self trace sendmail_thread set_status set_sendmail_thread set_editor_thread
       set_message_string] in *;
  rewrite ?count_effects_app; cbn [count_effects List.filter is_send_start is_popen length];
  try (cbn; lia).

Lemma send_handle_kept (E : env) (ev : event) (s : state ComposeView) :
  sendmail_thread (self s) <> None -> sendmail_thread (self (step E ev s)) <> None.
Proof.
  intros Hset. destruct s as [view t]. cbn [self] in Hset.
  destruct ev; unfold step, edit, send, EditorThread_run, edit_done, ComposeView_refresh; run.
  all: repeat (case_match; simplify_eq/=); congruence.
Qed.

Lemma send_is_noop (E : env) (s : state ComposeView) :
  sendmail_thread (self s) <> None -> send E s = (s, Ok tt).
Proof.
  intros Hset. unfold send. run. by destruct (sendmail_thread (self s)).
Qed.

Lemma step_send_invariant (E : env) (ev : event) (s : state ComposeView) :
  send_invariant s -> send_invariant (step E ev s).
Proof.
  destruct s as [view t]. unfold send_invariant. cbn [self trace]. intros Hinv.
  destruct ev; unfold step, edit, send, EditorThread_run, SendmailThread_run, edit_done,
    ComposeView_refresh, wait; run.
  - repeat (case_match; simplify_eq/=); by count_trace.
  - repeat (case_match; simplify_eq/=); destruct Hinv; split; by count_trace.
  - repeat (case_match; simplify_eq/=); by count_trace.
  - repeat (case_match; simplify_eq/=); destruct Hinv; split; by count_trace.
Qed.

Lemma session_send_invariant (evs : list (env * event)) (s : state ComposeView) :
  send_invariant s -> send_invariant (session evs s).
Proof.
  revert s. induction evs as [| [E ev] evs IH]; intros s Hinv; [done |].
  apply IH. by apply step_send_invariant.
Qed.

(** C10. Over a whole session, whatever the user calls and whatever the
    background threads meet, at most one SendmailThread is started and the
    transfer agent is started at most once.  [send] is a no-op once the
    handle is set, and no event of the session unsets it: not the end of a
    send that was accepted, refused or timed out, nor one that raised. *)
Theorem at_most_one_send (E : env) (draft : string) (reply : option message)
    (evs : list (env * event)) :
  let s := session evs (State (ComposeView_init E draft reply) []) in
  (count_effects is_send_start (trace s) <= 1)%nat
  /\ (count_effects is_popen (trace s) <= 1)%nat
  /\ (forall E' s', sendmail_thread (self s') <> None -> send E' s' = (s', Ok tt))
  /\ (forall E' ev s',
        sendmail_thread (self s') <> None -> sendmail_thread (self (step E' ev s')) <> None).
Proof.
  intros s.
  assert (send_invariant s) as Hinv.
  { apply session_send_invariant. by split. }
  unfold send_invariant in Hinv.
  split; [| split; [| split]].
  - destruct (sendmail_thread (self s)) as [[|] |]; lia.
  - destruct (sendmail_thread (self s)) as [[|] |]; lia.
  - intros E' s'. apply send_is_noop.
  - intros E' ev s'. apply send_handle_kept.
Qed.

(** A refused send cannot be retried: the second [send] changes nothing. *)
Example no_retry_after_error :
  let refused := with_sendmail (Some 1%nat) 1 sample_env in
  let s := session [(refused, CallSend); (refused, SendmailThreadRuns);
                    (sample_env, CallSend); (sample_env, SendmailThreadRuns)]
             (State (ComposeView_init sample_env plain_draft None) []) in
  status (self s) = status_markup "$fg_bad" "error"
  /\ sendmail_thread (self s) = Some Finished
  /\ count_effects is_send_start (trace s) = 1%nat
  /\ count_effects is_popen (trace s) = 1%nat
  /\ count_effects is_maildir_add (trace s) = 0%nat.
Proof. vm_compute. repeat split. Qed.


(** * Further properties of the code *)

(** ** The flattener, continued *)

Lemma flat_thread_message_tree (d : node) :
  message_tree d -> flat_thread d = Ok (sort_key timestamp (leaf_messages d)).
Proof.
  intros Hd. unfold flat_thread. rewrite dfs_leaves, app_nil_l.
  rewrite (message_leaves _ Hd). fold (leaf_messages d).
  by rewrite mapM_subscript_messages.
Qed.

Lemma flat_thread_inv (d : node) (flat : list message) :
  flat_thread d = Ok flat ->
  leaves d = Msg <$> leaf_messages d /\ flat = sort_key timestamp (leaf_messages d).
Proof.
  intros Hflat.
  destruct (decide (Exists (fun x => as_message x = None) (leaves d))) as [Hex | Hall].
  - unfold flat_thread in Hflat.
    by rewrite dfs_leaves, app_nil_l, (mapM_subscript_malformed _ Hex) in Hflat.
  - assert (message_tree d) as Hd.
    { apply Forall_forall. intros x Hx.
      destruct (as_message x) as [m |] eqn:Hm; [by exists m |].
      exfalso. apply Hall, Exists_exists. by exists x. }
    rewrite (flat_thread_message_tree d Hd) in Hflat. injection Hflat as <-.
    split; [by apply message_leaves | done].
Qed.

(** The nesting of the reply tree carries no meaning: two trees with the
    same leaves in the same traversal order flatten alike, whether that is
    to a list or to an exception. *)
Lemma flat_thread_nesting_irrelevant (d1 d2 : node) :
  leaves d1 = leaves d2 -> flat_thread d1 = flat_thread d2.
Proof.
  intros Hleaves. unfold flat_thread. by rewrite !dfs_leaves, Hleaves.
Qed.

Lemma flat_thread_nesting_irrelevant_witness :
  flat_thread sample_tree = flat_thread (Seq [Msg m_a; Msg m_b; Msg m_c; Msg m_e]).
Proof. exact (flat_thread_nesting_irrelevant sample_tree _ eq_refl). Defined.

Lemma NoDup_fmap_eq {A B} (f : A -> B) (l : list A) (x y : A) :
  NoDup (f <$> l) -> x ∈ l -> y ∈ l -> f x = f y -> x = y.
Proof.
  induction l as [| z l IH]; intros Hnd Hx Hy Hf; [by apply elem_of_nil in Hx |].
  rewrite fmap_cons in Hnd. apply NoDup_cons in Hnd as [Hz Hnd].
  apply elem_of_cons in Hx as [-> | Hx]; apply elem_of_cons in Hy as [-> | Hy].
  - done.
  - exfalso. apply Hz. rewrite Hf. by apply list_elem_of_fmap_2.
  - exfalso. apply Hz. rewrite <- Hf. by apply list_elem_of_fmap_2.
  - by apply IH.
Qed.

(** When no two messages share a timestamp, the order in which the
    indexer lists them does not matter at all: trees whose leaves are the
    same messages in any order flatten to the same list. *)
Lemma flat_thread_order_irrelevant (d1 d2 : node) :
  message_tree d1 ->
  message_tree d2 ->
  leaf_messages d1 ≡ₚ leaf_messages d2 ->
  NoDup (timestamp <$> leaf_messages d1) ->
  flat_thread d1 = flat_thread d2.
Proof.
  intros Hd1 Hd2 Hperm Hnd.
  rewrite (flat_thread_message_tree d1 Hd1), (flat_thread_message_tree d2 Hd2).
  assert (Transitive by_timestamp) as Htrans.
  { intros x y z. unfold by_timestamp. lia. }
  f_equal. apply (Sorted_unique_strong by_timestamp).
  - intros x1 x2 Hx1 Hx2 Hle1 Hle2.
    apply (NoDup_fmap_eq timestamp (leaf_messages d1)); [done | | |].
    + by rewrite <- (sort_key_Permutation timestamp).
    + by rewrite Hperm, <- (sort_key_Permutation timestamp).
    + unfold by_timestamp in *. lia.
  - apply (sort_key_Sorted timestamp).
  - apply (sort_key_Sorted timestamp).
  - by rewrite !sort_key_Permutation.
Qed.

Lemma flat_thread_order_irrelevant_witness :
  flat_thread (Seq [Msg m_e; Seq [Msg m_b; Msg m_a]])
  = flat_thread (Seq [Seq [Msg m_a; Msg m_e]; Msg m_b]).
Proof.
  apply flat_thread_order_irrelevant.
  - unfold message_tree. simpl. repeat constructor; eexists; reflexivity.
  - unfold message_tree. simpl. repeat constructor; eexists; reflexivity.
  - vm_compute. apply perm_trans with [m_e; m_a; m_b]; [| apply perm_swap].
    apply perm_skip, perm_swap.
  - apply (bool_decide_unpack _). vm_compute. exact I.
Defined.

Lemma leaves_flat (ms : list message) : leaves (Seq (Msg <$> ms)) = Msg <$> ms.
Proof.
  induction ms as [| m ms IH]; [done |].
  change (leaves (Seq (Msg <$> m :: ms))) with (Msg m :: leaves (Seq (Msg <$> ms))).
  by rewrite IH.
Qed.

(** Flattening is idempotent: a thread that [flat_thread] returned, handed
    back as a flat sequence of messages, comes out unchanged. *)
Lemma flat_thread_reflatten (d : node) (flat : list message) :
  flat_thread d = Ok flat -> flat_thread (Seq (Msg <$> flat)) = Ok flat.
Proof.
  intros [_ ->]%flat_thread_inv.
  set (flat := sort_key timestamp (leaf_messages d)).
  unfold flat_thread. rewrite dfs_leaves, app_nil_l, leaves_flat, mapM_subscript_messages.
  simpl. f_equal. symmetry. apply (sort_key_characterised timestamp); [| done].
  apply (sort_key_Sorted timestamp).
Qed.

Lemma flat_thread_reflatten_witness :
  flat_thread (Seq (Msg <$> [m_e; m_b; m_a; m_c])) = Ok [m_e; m_b; m_a; m_c].
Proof. exact (flat_thread_reflatten sample_tree _ eq_refl). Defined.

(** ** The default selection, continued *)

(** On a thread that has messages the default selection is a valid index:
    [message_at] returns a message for it, so the panel's first
    [show_message] passes its bounds test. *)
Lemma default_message_in_range (tm : ThreadModel) :
  thread tm <> [] ->
  0 <= default_message tm < num_messages tm
  /\ exists m, message_at tm (default_message tm) = Ok m.
Proof.
  intros Hne.
  assert (0 <= default_message tm < num_messages tm) as Hrange.
  { unfold default_message, num_messages.
    pose proof (default_message_loop_spec (thread tm) 0) as Hloop.
    destruct (default_message_loop 0 (thread tm)) as [r |].
    - destruct Hloop as (n & m & -> & Hn & _). apply lookup_lt_Some in Hn. lia.
    - destruct (thread tm); [done | simpl; lia]. }
  split; [done |].
  destruct (getitem_in_range (thread tm) (default_message tm) Hrange) as (m & Hm & _).
  by exists m.
Qed.

Lemma default_message_in_range_witness :
  0 <= default_message sample_model < num_messages sample_model
  /\ exists m, message_at sample_model (default_message sample_model) = Ok m.
Proof.
  assert (thread sample_model <> []) as Hne by discriminate.
  exact (default_message_in_range sample_model Hne).
Defined.

(** ** The thread model as the list view sees it *)

(** [index] hands out a valid index exactly for the rows below [rowCount],
    the index carries the row it was asked for, and [message_at] returns a
    message for it. *)
Lemma ThreadModel_index_in_range (tm : ThreadModel) (row : Z) (ix : Z) :
  index tm row = Some ix ->
  ix = row
  /\ 0 <= row < ThreadViews.rowCount tm None
  /\ ThreadViews.rowCount tm (Some ix) = 0
  /\ exists m, message_at tm ix = Ok m /\ thread tm !! Z.to_nat row = Some m.
Proof.
  unfold index, Qt.hasIndex, ThreadViews.rowCount, num_messages, message_at.
  destruct (Z.leb_spec 0 row); [| done].
  destruct (Z.ltb_spec row (Z.of_nat (length (thread tm)))); [| done].
  intros [= <-]. repeat split; try lia.
  by apply getitem_in_range.
Qed.

Lemma ThreadModel_index_in_range_witness :
  exists m, message_at sample_model 2 = Ok m /\ thread sample_model !! 2%nat = Some m.
Proof.
  destruct (ThreadModel_index_in_range sample_model 2 2 eq_refl) as (_ & _ & _ & Hm).
  exact Hm.
Defined.

(** The rows outside the thread get the invalid index. *)
Lemma ThreadModel_index_out_of_range (tm : ThreadModel) (row : Z) :
  row < 0 \/ num_messages tm <= row -> index tm row = None.
Proof.
  unfold index, Qt.hasIndex. intros [Hrow | Hrow].
  - by destruct (Z.leb_spec 0 row); [lia |].
  - destruct (Z.ltb_spec row (num_messages tm)); [lia |]. by rewrite andb_false_r.
Qed.

(** For a row of the thread, the list shows what [short_string] returns for
    the message, or "(message)" when that is None, and shows it in bold
    exactly when the message is unread; at and after the last row [data]
    returns None for every role. *)
Lemma ThreadModel_data_row (S : Settings.settings) (tm : ThreadModel) (row : Z) (m : message) :
  0 <= row ->
  thread tm !! Z.to_nat row = Some m ->
  ThreadViews.data S tm row QtData.DisplayRole
  = Ok (QtData.Text (default "(message)" (ThreadViews.short_string m)))
  /\ ThreadViews.data S tm row QtData.FontRole
     = Ok (QtData.Font (Settings.search_font S) (Settings.search_font_size S) (is_unread m))
  /\ forall role row', Z.of_nat (length (thread tm)) <= row' ->
       ThreadViews.data S tm row' role = Ok QtData.NoData.
Proof.
  intros Hrow Hm. pose proof (lookup_lt_Some _ _ _ Hm) as Hlt.
  assert (0 <= row < Z.of_nat (length (thread tm))) as Hrange by lia.
  destruct (getitem_in_range (thread tm) row Hrange) as (m' & Hget & Hm').
  assert (m' = m) as -> by congruence.
  unfold ThreadViews.data, ThreadViews.short_string.
  destruct (Z.geb_spec row (Z.of_nat (length (thread tm)))); [lia |].
  rewrite Hget. cbn. repeat split.
  - by destruct (headers m).
  - intros role row' Hrow'.
    by destruct (Z.geb_spec row' (Z.of_nat (length (thread tm)))); [| lia].
Qed.

Lemma ThreadModel_data_row_witness :
  ThreadViews.data
    {| Settings.search_font := "DejaVu Sans Mono"; Settings.search_font_size := 13;
       Settings.theme := ∅; Settings.tag_icons := ∅;
       Settings.html_block_remote_requests := true;
       Settings.email_address := "me@x" |}
    sample_model 1 QtData.FontRole
  = Ok (QtData.Font "DejaVu Sans Mono" 13 true).
Proof.
  assert (0 <= 1) as Hrow by lia.
  destruct (ThreadModel_data_row
              {| Settings.search_font := "DejaVu Sans Mono"; Settings.search_font_size := 13;
                 Settings.theme := ∅; Settings.tag_icons := ∅;
                 Settings.html_block_remote_requests := true;
                 Settings.email_address := "me@x" |}
              sample_model 1 m_b Hrow eq_refl) as (_ & Hfont & _).
  exact Hfont.
Defined.

(** ** The thread panel: refresh, tagging and navigation at the edges *)

Lemma getitem_negative {A} (l : list A) (i : Z) :
  - Z.of_nat (length l) <= i < 0 ->
  exists x, getitem l i = Ok x /\ l !! Z.to_nat (i + Z.of_nat (length l)) = Some x.
Proof.
  intros Hi. unfold getitem.
  destruct (Z.ltb_spec i 0); [| lia].
  destruct (Z.leb_spec 0 (i + Z.of_nat (length l))); [| lia].
  destruct (Z.ltb_spec (i + Z.of_nat (length l)) (Z.of_nat (length l))); [| lia].
  simpl. destruct (lookup_lt_is_Some_2 l (Z.to_nat (i + Z.of_nat (length l)))) as [x Hx];
    [lia |].
  exists x. by rewrite Hx.
Qed.

(** A negative [current_message] that Python's indexing still accepts (the
    initial -1 on a thread with messages, say) does not stop [refresh]: it
    returns, the list view is left without a current index, and the subject
    is that of the message counted from the end of the thread. *)
Lemma ThreadPanel_refresh_negative_index (panel : ThreadPanel) (d : node)
    (flat : list message) (t : list effect) :
  flat_thread d = Ok flat ->
  - Z.of_nat (length flat) <= current_message panel < 0 ->
  let out := ThreadPanel_refresh (Ok d) (State panel t) in
  exists m,
    flat !! Z.to_nat (current_message panel + Z.of_nat (length flat)) = Some m
    /\ out.2 = Ok tt
    /\ thread (model (self out.1)) = flat
    /\ current_message (self out.1) = current_message panel
    /\ thread_list_current (self out.1) = None
    /\ subject (self out.1)
       = match headers m with
         | Some hs => default "(no subject)" (hs !! "Subject")
         | None => "(no subject)"
         end.
Proof.
  intros Hflat Hi. destruct (getitem_negative flat (current_message panel) Hi) as (m & Hget & Hm).
  exists m. split; [done |].
  unfold ThreadPanel_refresh, ThreadModel_refresh. run. rewrite Hflat.
  cbn. unfold index, checkIndex, Qt.checkIndex, Qt.hasIndex, num_messages, message_at. cbn.
  destruct (Z.leb_spec 0 (current_message panel)); [lia |].
  cbn. by rewrite Hget.
Qed.

Lemma ThreadPanel_refresh_negative_index_witness :
  (exec (ThreadPanel_refresh (Ok sample_tree))
     {| model := sample_model; current_message := -1; subject := "";
        thread_list_current := None |}).2 = Ok tt.
Proof.
  assert (- Z.of_nat (length [m_e; m_b; m_a; m_c]) <= -1 < 0) as Hi by (simpl; lia).
  destruct (ThreadPanel_refresh_negative_index
              {| model := sample_model; current_message := -1; subject := "";
                 thread_list_current := None |}
              sample_tree [m_e; m_b; m_a; m_c] [] eq_refl Hi) as (m & _ & Hok & _).
  exact Hok.
Defined.

(** With no message at [current_message], tagging and toggling raise the
    IndexError of [message_at] before anything is run: no indexer command,
    no invalidation, no refresh, and the panel is as it was. *)
Lemma tag_message_without_message (panel : ThreadPanel) (tag_expr tag : string)
    (shown : res node) (e : exn) :
  message_at (model panel) (current_message panel) = Raise e ->
  exec (tag_message tag_expr shown) panel = (State panel [], Raise e)
  /\ exec (toggle_message_tag tag shown) panel = (State panel [], Raise e).
Proof.
  intros Hm. unfold tag_message, toggle_message_tag. run. rewrite Hm.
  by destruct panel.
Qed.

Lemma tag_message_without_message_witness :
  exec (tag_message "+flagged" (Ok (Seq [])))
    {| model := {| thread_id := "t"; d := Seq []; thread := [] |};
       current_message := -1; subject := ""; thread_list_current := None |}
  = (State {| model := {| thread_id := "t"; d := Seq []; thread := [] |};
              current_message := -1; subject := ""; thread_list_current := None |} [],
     Raise IndexError).
Proof.
  exact (proj1 (tag_message_without_message
                  {| model := {| thread_id := "t"; d := Seq []; thread := [] |};
                     current_message := -1; subject := ""; thread_list_current := None |}
                  "+flagged" "flagged" (Ok (Seq [])) IndexError eq_refl)).
Defined.

Lemma ThreadPanel_refresh_current_message (shown : res node) (s : state ThreadPanel) :
  current_message (self (ThreadPanel_refresh shown s).1) = current_message (self s).
Proof.
  unfold ThreadPanel_refresh, ThreadModel_refresh. run.
  destruct s as [panel t]. cbn.
  repeat (case_match; simplify_eq/=); done.
Qed.

Lemma tag_message_current_message (tag_expr : string) (shown : res node)
    (s : state ThreadPanel) :
  current_message (self (tag_message tag_expr shown s).1) = current_message (self s).
Proof.
  unfold tag_message. run. destruct s as [panel t]. cbn [self trace].
  destruct (message_at _ _); [| done]. cbn.
  destruct (id a); [| done]. cbn.
  by rewrite ThreadPanel_refresh_current_message.
Qed.

Lemma show_message_current (i : Z) (shown shown' : res node) (panel : ThreadPanel) :
  current_message (self (exec (ThreadViews.show_message i shown shown') panel).1)
  = (if i =? -1 then current_message panel else i).
Proof.
  unfold ThreadViews.show_message, exec. run.
  destruct (i =? -1); cbn [negb]; cbn.
  all: destruct (_ && _); [| done].
  all: match goal with
       | |- context [ThreadPanel_refresh ?sh ?s0] =>
           pose proof (ThreadPanel_refresh_current_message sh s0) as Href;
           destruct (ThreadPanel_refresh sh s0) as [s1 [[] | e]]
       end; cbn in *; [| congruence].
  all: destruct (message_at _ _) as [m |]; cbn; [| congruence].
  all: destruct (tags m) as [ts |]; cbn; [| congruence].
  all: destruct (bool_decide _); cbn; [| congruence].
  all: rewrite tag_message_current_message; congruence.
Qed.

(** [show_message] stores the index it is given (anything but the -1 that
    stands for "the current one") whatever happens afterwards, also when the
    index is outside the thread; in that case it does nothing else, so the
    panel is left pointing outside the thread. *)
Lemma show_message_stores_index (i : Z) (shown shown' : res node) (panel : ThreadPanel) :
  current_message (self (exec (ThreadViews.show_message i shown shown') panel).1)
  = (if i =? -1 then current_message panel else i)
  /\ (i <> -1 -> (i < 0 \/ num_messages (model panel) <= i) ->
      exec (ThreadViews.show_message i shown shown') panel
      = (State (ThreadViews.set_current_message i panel) [], Ok tt)).
Proof.
  split; [apply show_message_current |].
  intros Hi Hout. unfold ThreadViews.show_message, exec. run.
  destruct (Z.eqb_spec i (-1)); [done |]. cbn.
  destruct Hout as [Hneg | Hlarge].
  - by destruct (Z.geb_spec i 0); [lia |].
  - destruct (Z.ltb_spec i (num_messages (model panel))); [lia |].
    by rewrite andb_false_r.
Qed.

Lemma ThreadPanel_refresh_run (panel : ThreadPanel) (d : node) (flat : list message)
    (t : list effect) (m : message) :
  flat_thread d = Ok flat ->
  getitem flat (current_message panel) = Ok m ->
  ThreadPanel_refresh (Ok d) (State panel t)
  = (State {| model := set_thread flat (set_d d (model panel));
              current_message := current_message panel;
              subject := match headers m with
                         | Some hs => default "(no subject)" (hs !! "Subject")
                         | None => "(no subject)"
                         end;
              thread_list_current :=
                if Qt.hasIndex (Z.of_nat (length flat)) (current_message panel)
                then Some (current_message panel) else None |}
       (t ++ [Subprocess ["notmuch"; "show"; "--format=json"; "--include-html";
                          thread_id (model panel)]]),
     Ok tt).
Proof.
  intros Hflat Hm. unfold ThreadPanel_refresh, ThreadModel_refresh. run. rewrite Hflat.
  cbn. unfold index, checkIndex, Qt.checkIndex, num_messages, message_at. cbn.
  destruct (Qt.hasIndex _ _) eqn:Hix; cbn; rewrite ?Hix, Hm; done.
Qed.

(** Showing a message takes the "unread" tag off it, and touches no tag
    otherwise: after its own refresh, [show_message] runs
    [notmuch tag -unread -- id:ID] for the message now at the index exactly
    when that message carries "unread", followed by the invalidation and the
    second refresh of [tag_message]. *)
Lemma show_message_marks_read (i : Z) (panel : ThreadPanel) (d : node)
    (flat : list message) (shown' : res node) (m : message) (ts : list string)
    (mid : string) :
  i <> -1 ->
  0 <= i < num_messages (model panel) ->
  flat_thread d = Ok flat ->
  flat !! Z.to_nat i = Some m ->
  tags m = Some ts ->
  id m = Some mid ->
  let show := Subprocess ["notmuch"; "show"; "--format=json"; "--include-html";
                          thread_id (model panel)] in
  trace (exec (ThreadViews.show_message i (Ok d) shown') panel).1
  = if bool_decide ("unread" ∈ ts)
    then [show; tag_command "-unread" ("id:" +:+ mid); InvalidatePanels; show]
    else [show].
Proof.
  intros Hi Hrange Hflat Hm Hts Hid show. subst show.
  pose proof (lookup_lt_Some _ _ _ Hm) as Hlt.
  assert (0 <= i < Z.of_nat (length flat)) as Hrange' by lia.
  destruct (getitem_in_range flat i Hrange') as (m' & Hget & Hm').
  assert (m' = m) as -> by congruence.
  unfold ThreadViews.show_message, exec. run.
  destruct (Z.eqb_spec i (-1)); [done |]. cbn.
  destruct (Z.geb_spec i 0); [| lia].
  destruct (Z.ltb_spec i (num_messages (model panel))); [| lia]. cbn.
  rewrite (ThreadPanel_refresh_run (ThreadViews.set_current_message i panel) d flat [] m
             Hflat Hget).
  cbn. unfold message_at. cbn. rewrite Hget. cbn. rewrite Hts. cbn.
  destruct (bool_decide ("unread" ∈ ts)); [| done].
  unfold tag_message. run. unfold message_at. cbn. rewrite Hget, Hid. cbn.
  rewrite ThreadPanel_refresh_trace. done.
Qed.

Lemma show_message_marks_read_witness :
  trace (exec (ThreadViews.show_message 1 (Ok sample_tree) (Ok sample_tree)) sample_panel).1
  = [Subprocess ["notmuch"; "show"; "--format=json"; "--include-html"; "0000000000000001"];
     Subprocess ["notmuch"; "tag"; "-unread"; "--"; "id:b"];
     InvalidatePanels;
     Subprocess ["notmuch"; "show"; "--format=json"; "--include-html"; "0000000000000001"]].
Proof.
  assert (1 <> -1) as Hi by lia.
  assert (0 <= 1 < num_messages (model sample_panel)) as Hrange by (vm_compute; split; congruence).
  exact (show_message_marks_read 1 sample_panel sample_tree [m_e; m_b; m_a; m_c]
           (Ok sample_tree) m_b ["inbox"; "unread"] "b" Hi Hrange eq_refl eq_refl eq_refl
           eq_refl).
Defined.

(** From a message of the thread, [next_message] and [previous_message]
    never leave the thread: the index moves by one and stops at the last and
    at the first message, whatever the indexer shows afterwards. *)
Lemma next_previous_message_in_range (panel : ThreadPanel) (shown shown' : res node) :
  0 <= current_message panel < num_messages (model panel) ->
  let next := current_message (self (exec (ThreadViews.next_message shown shown') panel).1) in
  let previous :=
    current_message (self (exec (ThreadViews.previous_message shown shown') panel).1) in
  next = Z.min (current_message panel + 1) (num_messages (model panel) - 1)
  /\ previous = Z.max (current_message panel - 1) 0
  /\ 0 <= next < num_messages (model panel)
  /\ 0 <= previous < num_messages (model panel).
Proof.
  intros Hrange next previous.
  assert (next = Z.min (current_message panel + 1) (num_messages (model panel) - 1)) as Hn.
  { subst next. unfold ThreadViews.next_message, exec. run.
    pose proof (show_message_current
                  (Z.min (current_message panel + 1) (num_messages (model panel) - 1))
                  shown shown' panel) as Hshow.
    unfold exec in Hshow. rewrite Hshow.
    destruct (Z.eqb_spec (Z.min (current_message panel + 1) (num_messages (model panel) - 1))
                (-1)); [lia | done]. }
  assert (previous = Z.max (current_message panel - 1) 0) as Hp.
  { subst previous. unfold ThreadViews.previous_message, exec. run.
    pose proof (show_message_current (Z.max (current_message panel - 1) 0)
                  shown shown' panel) as Hshow.
    unfold exec in Hshow. rewrite Hshow.
    destruct (Z.eqb_spec (Z.max (current_message panel - 1) 0) (-1)); [lia | done]. }
  rewrite Hn, Hp. lia.
Qed.

Lemma next_previous_message_in_range_witness :
  current_message
    (self (exec (ThreadViews.next_message (Ok sample_tree) (Ok sample_tree)) sample_panel).1)
  = 3
  /\ current_message
       (self (exec (ThreadViews.previous_message (Ok sample_tree) (Ok sample_tree))
                sample_panel).1)
     = 2.
Proof.
  assert (0 <= current_message sample_panel < num_messages (model sample_panel)) as Hrange
    by (vm_compute; split; congruence).
  destruct (next_previous_message_in_range sample_panel (Ok sample_tree) (Ok sample_tree)
              Hrange) as (Hnext & Hprevious & _).
  split; [exact Hnext | exact Hprevious].
Defined.

(** ** Remote content and embedded images *)

Lemma substring_cid (url : string) :
  String.eqb (String.substring 0 4 url) "cid:" = String.prefix "cid:" url.
Proof.
  destruct url as [| c1 [| c2 [| c3 [| c4 url]]]];
    cbn [String.substring String.eqb String.prefix];
    repeat (match goal with
            | |- context [Ascii.eqb ?a ?b] => destruct (Ascii.eqb_spec a b); subst
            | |- context [ascii_dec ?a ?b] => destruct (ascii_dec a b); subst
            end; cbn [String.substring String.eqb String.prefix]);
    try reflexivity; try congruence.
  by destruct url.
Qed.

(** A request is blocked exactly when blocking is switched on, the request
    is not for the main frame, and its URL does not start with "cid:".  So
    with the setting on nothing but the page itself and embedded parts is
    ever let through, and with it off nothing is blocked. *)
Lemma interceptRequest_blocks (S : Settings.settings)
    (info : ThreadViews.QWebEngineUrlRequestInfo) :
  ThreadViews.interceptRequest S info = true
  <-> Settings.html_block_remote_requests S = true
      /\ ThreadViews.resourceType info = ThreadViews.ResourceTypeOther
      /\ String.prefix "cid:" (ThreadViews.requestUrl info) = false.
Proof.
  unfold ThreadViews.interceptRequest. rewrite substring_cid.
  destruct (Settings.html_block_remote_requests S), (ThreadViews.resourceType info),
    (String.prefix "cid:" (ThreadViews.requestUrl info)); cbn; intuition congruence.
Qed.

(** The image handler fails closed.  Whatever it replies with is the type
    and the content of a part of the message at hand whose Content-id is the
    one asked for; when it returns it has replied or signalled a failure;
    and with no message, a message without header fields, or no part of that
    id, a failure is all it signals. *)
Lemma requestStarted_fails_closed (message : option ThreadViews.mime) (url : string) :
  let cid := ThreadViews.slice_from 4 url in
  let out := ThreadViews.requestStarted message url in
  (forall ct bytes,
      In (ThreadViews.Replied ct bytes) out.1 ->
      exists root part,
        message = Some root /\ In part (ThreadViews.walk root)
        /\ ThreadViews.has_content_id cid part = true
        /\ ThreadViews.content_type part = ct /\ ThreadViews.body part = Some bytes)
  /\ (out.2 = Ok tt ->
      In ThreadViews.Failed out.1 \/ exists ct bytes, In (ThreadViews.Replied ct bytes) out.1)
  /\ ((message = None
       \/ exists root, message = Some root
            /\ (ThreadViews.part_fields root = []
                \/ Forall (fun p => ThreadViews.has_content_id cid p = false)
                     (ThreadViews.walk root))) ->
      out = ([ThreadViews.Failed], Ok tt)).
Proof.
  intros cid out. subst out. unfold ThreadViews.requestStarted. fold cid.
  destruct message as [root |]; cbn [fst snd].
  2: { split; [| split]; [| by left; left | done].
       intros ct bytes [Hin | []]. discriminate Hin. }
  destruct (ThreadViews.part_fields root) as [| f fs] eqn:Hfields.
  { split; [| split]; [| by left; left | done].
    intros ct bytes [Hin | []]. discriminate Hin. }
  destruct (List.find (ThreadViews.has_content_id cid) (ThreadViews.walk root))
    as [part |] eqn:Hfind.
  - apply List.find_some in Hfind as [Hin Hcid].
    destruct (ThreadViews.body part) as [bytes |] eqn:Hbody; cbn [fst snd].
    + split; [| split].
      * intros ct bytes' Hrep. exists root, part.
        assert (ct = ThreadViews.content_type part /\ bytes' = bytes) as [-> ->].
        { destruct Hrep as [Hrep | [Hrep | Hrep]]; [discriminate Hrep | by injection Hrep |].
          destruct (String.eqb _ _); [| done].
          destruct Hrep as [Hrep | []]. discriminate Hrep. }
        done.
      * intros _. right. exists (ThreadViews.content_type part), bytes. right. by left.
      * intros [Hnone | (root' & [= <-] & [Hnil | Hall])]; [done | congruence |].
        rewrite Forall_forall in Hall. apply list_elem_of_In in Hin.
        specialize (Hall part Hin). congruence.
    + split; [| split]; [| done |].
      * intros ct bytes [Hrep | []]. discriminate Hrep.
      * intros [Hnone | (root' & [= <-] & [Hnil | Hall])]; [done | congruence |].
        rewrite Forall_forall in Hall. apply list_elem_of_In in Hin.
        specialize (Hall part Hin). congruence.
  - cbn [fst snd]. split; [| split]; [| by left; left | done].
    intros ct bytes [Hin | []]. discriminate Hin.
Qed.

(** The first part, in [walk] order, that carries the Content-id asked for
    is the one served: its content goes out under its content type, and no
    failure is signalled. *)
Lemma requestStarted_serves_first_match (root part : ThreadViews.mime) (url : string)
    (before after : list ThreadViews.mime) (bytes : string) :
  ThreadViews.part_fields root <> [] ->
  ThreadViews.walk root = before ++ part :: after ->
  Forall (fun p => ThreadViews.has_content_id (ThreadViews.slice_from 4 url) p = false) before ->
  ThreadViews.has_content_id (ThreadViews.slice_from 4 url) part = true ->
  ThreadViews.body part = Some bytes ->
  ThreadViews.content_type part <> "" ->
  ThreadViews.requestStarted (Some root) url
  = ([ThreadViews.Said "found cid"; ThreadViews.Replied (ThreadViews.content_type part) bytes],
     Ok tt).
Proof.
  intros Hfields Hwalk Hbefore Hpart Hbody Hct. unfold ThreadViews.requestStarted.
  destruct (ThreadViews.part_fields root) as [| f fs]; [done |].
  assert (List.find (ThreadViews.has_content_id (ThreadViews.slice_from 4 url))
            (ThreadViews.walk root) = Some part) as ->.
  { rewrite Hwalk. clear Hwalk.
    induction Hbefore as [| p before Hp _ IH]; cbn [app List.find].
    - by rewrite Hpart.
    - by rewrite Hp. }
  rewrite Hbody. apply String.eqb_neq in Hct. by rewrite Hct.
Qed.

Lemma requestStarted_serves_first_match_witness :
  ThreadViews.requestStarted (Some sample_mime) "cid:logo"
  = ([ThreadViews.Said "found cid"; ThreadViews.Replied "image/png" "PNG..."], Ok tt).
Proof.
  assert (ThreadViews.part_fields sample_mime <> []) as Hfields by discriminate.
  assert ("image/png" <> "") as Hct by discriminate.
  refine (requestStarted_serves_first_match sample_mime
            (ThreadViews.Part [("Content-Type", "image/png"); ("Content-ID", "<logo>")]
               "image/png" (Some "PNG...") [])
            "cid:logo"
            [sample_mime;
             ThreadViews.Part [("Content-Type", "text/html")] "text/html"
               (Some "<img src=cid:logo>") []]
            [] "PNG..." Hfields eq_refl _ eq_refl eq_refl Hct).
  repeat constructor.
Defined.

(** ** The search model and panel *)

(** [headerData] names the four columns for the sections 0 to 3 and returns
    None past section 4 and for every role but the display role; its test
    is [section <= len(columns)], so section 4 itself raises IndexError. *)
Lemma headerData_sections (section : Z) (role : QtData.ItemDataRole) :
  (role <> QtData.DisplayRole -> SearchViews.headerData section role = Ok None)
  /\ (0 <= section < 4 ->
      SearchViews.headerData section QtData.DisplayRole
      = Ok (SearchViews.columns !! Z.to_nat section))
  /\ (section = 4 -> SearchViews.headerData section QtData.DisplayRole = Raise IndexError)
  /\ (4 < section -> SearchViews.headerData section QtData.DisplayRole = Ok None).
Proof.
  split; [by destruct role |]. split; [| split].
  - intros Hs. unfold SearchViews.headerData.
    destruct (Z.leb_spec section (Z.of_nat (length SearchViews.columns))); [| simpl in *; lia].
    assert (section = 0 \/ section = 1 \/ section = 2 \/ section = 3) as Hcases by lia.
    by destruct Hcases as [-> | [-> | [-> | ->]]].
  - by intros ->.
  - intros Hs. unfold SearchViews.headerData.
    by destruct (Z.leb_spec section (Z.of_nat (length SearchViews.columns)));
      [simpl in *; lia |].
Qed.

Lemma Search_index_valid (panel : Search.SearchPanel) (row : Z) :
  selection_valid (Search.setCurrentIndex (Search.index (Search.model panel) row) panel).
Proof.
  unfold selection_valid, Search.index, Qt.hasIndex. cbn.
  destruct (Z.leb_spec 0 row); [| done].
  destruct (Z.ltb_spec row (Search.num_threads (Search.model panel))); [| done].
  cbn. lia.
Qed.

Lemma SearchPanel_refresh_none (e : exn) (s : state Search.SearchPanel) :
  Search.tree_current (self (Search.SearchPanel_refresh (Raise e) s).1)
  = Search.tree_current (self s)
  /\ Search.d (Search.model (self (Search.SearchPanel_refresh (Raise e) s).1))
     = Search.d (Search.model (self s)).
Proof.
  unfold Search.SearchPanel_refresh, Search.SearchModel_refresh. run. by destruct s.
Qed.

Lemma SearchPanel_refresh_selection (found : res (list Search.SearchRow))
    (s : state Search.SearchPanel) :
  selection_valid (self s) -> selection_valid (self (Search.SearchPanel_refresh found s).1).
Proof.
  destruct s as [panel t]. intros Hvalid. cbn [self] in Hvalid.
  destruct found as [rows | e].
  2: { unfold selection_valid in *.
       destruct (SearchPanel_refresh_none e (State panel t)) as [Hcur Hd].
       unfold Search.num_threads. by rewrite Hcur, Hd. }
  unfold Search.SearchPanel_refresh, Search.SearchModel_refresh, Search.last_thread. run.
  cbn. unfold Search.num_threads at 1. cbn.
  destruct (Z.geb_spec (Qt.row (Search.tree_current panel)) (Z.of_nat (length rows)))
    as [Hge | Hlt]; cbn.
  - unfold Search.index, Search.checkIndex, Qt.checkIndex, Qt.hasIndex, Search.num_threads.
    cbn. destruct (_ && _) eqn:Hix; cbn; rewrite ?Hix; cbn; unfold selection_valid; cbn.
    + unfold Search.num_threads. cbn. lia.
    + done.
  - unfold selection_valid in *. cbn. unfold Search.num_threads. cbn.
    destruct (Search.tree_current panel) as [r |]; [| done]. cbn in Hlt. lia.
Qed.

(** Nothing the search panel does leaves the selection outside the model:
    when the current index of the tree view is the invalid one or a row of
    the model, it still is after moving to the next, previous, first or last
    thread, after a refresh (whatever the indexer returns), and after
    tagging or toggling a tag. *)
Lemma SearchPanel_selection_stays_valid (panel : Search.SearchPanel)
    (found : res (list Search.SearchRow)) (tag_expr : string) :
  selection_valid panel ->
  selection_valid (self (exec SearchViews.next_thread panel).1)
  /\ selection_valid (self (exec SearchViews.previous_thread panel).1)
  /\ selection_valid (self (exec SearchViews.first_thread panel).1)
  /\ selection_valid (self (exec Search.last_thread panel).1)
  /\ selection_valid (self (exec (Search.SearchPanel_refresh found) panel).1)
  /\ selection_valid (self (exec (Search.tag_thread tag_expr found) panel).1)
  /\ selection_valid (self (exec (Search.toggle_thread_tag tag_expr found) panel).1).
Proof.
  intros Hvalid.
  assert (forall expr,
             selection_valid (self (exec (Search.tag_thread expr found) panel).1)) as Htag.
  { intros expr. unfold Search.tag_thread, exec. run.
    destruct (Search.thread_id _ _) as [t |]; [| done].
    destruct (String.eqb t ""); [done |]. cbn.
    by apply (SearchPanel_refresh_selection found (State panel _)). }
  repeat split.
  - unfold SearchViews.next_thread, SearchViews.rowCount, exec. run.
    destruct (_ && _); [| done]. apply Search_index_valid.
  - unfold SearchViews.previous_thread, SearchViews.rowCount, exec. run.
    destruct (_ && _); [| done]. apply Search_index_valid.
  - unfold SearchViews.first_thread, exec. run.
    destruct (Search.checkIndex _ _); [| done]. apply Search_index_valid.
  - unfold Search.last_thread, exec. run.
    destruct (Search.checkIndex _ _); [| done]. apply Search_index_valid.
  - by apply (SearchPanel_refresh_selection found (State panel [])).
  - apply Htag.
  - unfold Search.toggle_thread_tag, exec. run.
    destruct (Search.thread_json _ _) as [row |]; [| done].
    apply Htag.
Qed.

Lemma SearchPanel_selection_stays_valid_witness :
  selection_valid (self (exec (Search.SearchPanel_refresh (Ok [])) two_rows).1)
  /\ selection_valid (self (exec SearchViews.next_thread two_rows).1).
Proof.
  assert (selection_valid two_rows) as Hvalid by (vm_compute; split; congruence).
  destruct (SearchPanel_selection_stays_valid two_rows (Ok []) "+flagged" Hvalid)
    as (Hnext & _ & _ & _ & Hrefresh & _).
  split; [exact Hrefresh | exact Hnext].
Defined.

(** Moving through the list: [next_thread] selects the row below and
    [previous_thread] the row above; at the last row and at the first row
    they change nothing; and from any row but the last, going down and then
    up again ends on the row one started from. *)
Lemma next_previous_thread (panel : Search.SearchPanel) (r : Z) :
  Search.tree_current panel = Some r ->
  0 <= r < Search.num_threads (Search.model panel) ->
  let down := self (exec SearchViews.next_thread panel).1 in
  let up := self (exec SearchViews.previous_thread panel).1 in
  Search.tree_current down
  = Some (if r + 1 <? Search.num_threads (Search.model panel) then r + 1 else r)
  /\ Search.tree_current up = Some (if 0 <? r then r - 1 else r)
  /\ Search.model down = Search.model panel
  /\ Search.model up = Search.model panel
  /\ (r + 1 < Search.num_threads (Search.model panel) ->
      Search.tree_current (self (exec SearchViews.previous_thread down).1) = Some r).
Proof.
  intros Hcur Hr down up. subst down up.
  unfold SearchViews.next_thread, SearchViews.previous_thread, SearchViews.rowCount, exec. run.
  rewrite Hcur. cbn [Qt.row].
  unfold Search.index, Qt.hasIndex.
  destruct (Z.geb_spec (r + 1) 0); [| lia].
  destruct (Z.leb_spec 0 (r + 1)); [| lia].
  destruct (Z.ltb_spec (r + 1) (Search.num_threads (Search.model panel))) as [Hlast | Hlast];
    destruct (Z.geb_spec (r - 1) 0) as [Hfirst | Hfirst];
    destruct (Z.ltb_spec 0 r); try lia;
    destruct (Z.leb_spec 0 (r - 1)); try lia;
    destruct (Z.ltb_spec (r - 1) (Search.num_threads (Search.model panel))); try lia;
    cbn; rewrite ?Hcur; repeat split; try done; try lia.
  all: intros _; cbn.
  all: replace (r + 1 - 1) with r by lia.
  all: destruct (Z.geb_spec r 0); [| lia].
  all: destruct (Z.ltb_spec r (Search.num_threads (Search.model panel))); [| lia].
  all: cbn; destruct (Z.leb_spec 0 r); [| lia].
  all: by destruct (Z.ltb_spec r (Search.num_threads (Search.model panel))); [| lia].
Qed.

Lemma next_previous_thread_witness :
  Search.tree_current (self (exec SearchViews.next_thread two_rows).1) = Some 1
  /\ Search.tree_current (self (exec SearchViews.previous_thread two_rows).1) = Some 0.
Proof.
  assert (0 <= 0 < Search.num_threads (Search.model two_rows)) as Hr
    by (vm_compute; split; congruence).
  destruct (next_previous_thread two_rows 0 eq_refl Hr) as (Hdown & Hup & _).
  split; [exact Hdown | exact Hup].
Defined.

(** Without a thread to act on, [tag_thread] runs nothing: when no row is
    selected, or the selected row has no thread id or an empty one, no
    indexer command is run, nothing is invalidated and the panel is not
    refreshed; [toggle_thread_tag] likewise when no row is selected. *)
Lemma tag_thread_without_thread (panel : Search.SearchPanel) (tag_expr : string)
    (found : res (list Search.SearchRow)) :
  Search.thread_id (Search.model panel) (Search.tree_current panel) = None
  \/ Search.thread_id (Search.model panel) (Search.tree_current panel) = Some "" ->
  exec (Search.tag_thread tag_expr found) panel = (State panel [], Ok tt)
  /\ (Search.thread_json (Search.model panel) (Search.tree_current panel) = None ->
      exec (Search.toggle_thread_tag tag_expr found) panel = (State panel [], Ok tt))
  /\ SearchViews.open_current_thread panel = None.
Proof.
  intros Hid. unfold Search.tag_thread, Search.toggle_thread_tag,
    SearchViews.open_current_thread, exec. run.
  repeat split.
  - by destruct Hid as [-> | ->].
  - by intros ->.
  - by destruct Hid as [-> | ->].
Qed.

Lemma tag_thread_without_thread_witness :
  exec (Search.tag_thread "+flagged" (Ok [sample_row]))
    {| Search.model := {| Search.q := "tag:inbox"; Search.d := [sample_row] |};
       Search.tree_current := None |}
  = (State {| Search.model := {| Search.q := "tag:inbox"; Search.d := [sample_row] |};
              Search.tree_current := None |} [], Ok tt).
Proof.
  exact (proj1 (tag_thread_without_thread
                  {| Search.model := {| Search.q := "tag:inbox"; Search.d := [sample_row] |};
                     Search.tree_current := None |}
                  "+flagged" (Ok [sample_row]) (or_introl eq_refl))).
Defined.

(** A refresh keeps the selection by position, not by conversation: when
    the selected row index is still below the new number of rows it stays
    the current index, so what is selected afterwards is whatever the
    indexer now lists at that position. *)
Lemma SearchPanel_refresh_keeps_position (panel : Search.SearchPanel)
    (rows : list Search.SearchRow) (t : list effect) (r : Z) :
  Search.tree_current panel = Some r ->
  0 <= r < Z.of_nat (length rows) ->
  let out := Search.SearchPanel_refresh (Ok rows) (State panel t) in
  out.2 = Ok tt
  /\ Search.tree_current (self out.1) = Some r
  /\ Search.thread_json (Search.model (self out.1)) (Search.tree_current (self out.1))
     = rows !! Z.to_nat r.
Proof.
  intros Hcur Hr.
  assert (Search.SearchPanel_refresh (Ok rows) (State panel t)
          = (State (Search.setCurrentIndex (Some r)
                      (Search.set_model (Search.set_d rows (Search.model panel)) panel))
               (t ++ [Subprocess ["notmuch"; "search"; "--format=json";
                                  Search.q (Search.model panel)]]),
             Ok tt)) as ->.
  { unfold Search.SearchPanel_refresh, Search.SearchModel_refresh. run. cbn.
    rewrite Hcur. cbn [Qt.row]. unfold Search.num_threads. cbn.
    by destruct (Z.geb_spec r (Z.of_nat (length rows))); [lia |]. }
  cbn. repeat split. unfold Search.thread_json, Search.num_threads. cbn.
  destruct (Z.leb_spec 0 r); [| lia].
  by destruct (Z.ltb_spec r (Z.of_nat (length rows))); [| lia].
Qed.

Lemma SearchPanel_refresh_keeps_position_witness :
  Search.thread_id
    (Search.model (self (exec (Search.SearchPanel_refresh (Ok [second_row; sample_row]))
                           two_rows).1))
    (Search.tree_current (self (exec (Search.SearchPanel_refresh (Ok [second_row; sample_row]))
                                  two_rows).1))
  = Some "0000000000000002".
Proof.
  assert (0 <= 0 < Z.of_nat (length [second_row; sample_row])) as Hr by (simpl; lia).
  destruct (SearchPanel_refresh_keeps_position two_rows [second_row; sample_row] [] 0
              eq_refl Hr) as (_ & Hcur & Hrow).
  unfold Search.thread_id, exec. rewrite Hrow. reflexivity.
Defined.

Lemma getitem_columns (column : Z) :
  0 <= column < 4 ->
  exists col, getitem SearchViews.columns column = Ok col
    /\ (col = "date" \/ col = "from" \/ col = "subject" \/ col = "tags").
Proof.
  intros Hc.
  assert (column = 0 \/ column = 1 \/ column = 2 \/ column = 3) as Hcases by lia.
  destruct Hcases as [-> | [-> | [-> | ->]]]; eexists; (split; [reflexivity |]); tauto.
Qed.

(** For every cell of the table, [data] returns a string under the display
    role and a font that is bold exactly when the conversation is unread;
    under the foreground role it returns a colour of the theme whenever the
    theme has the fallback "fg"; at and past the last row or the last column
    it returns None for every role. *)
Lemma SearchModel_data_cell (S : Settings.settings) (sm : Search.SearchModel)
    (row column : Z) (thread_d : Search.SearchRow) :
  0 <= row ->
  Search.d sm !! Z.to_nat row = Some thread_d ->
  0 <= column < 4 ->
  (exists text, SearchViews.data S sm row column QtData.DisplayRole = Ok (QtData.Text text))
  /\ SearchViews.data S sm row column QtData.FontRole
     = Ok (QtData.Font (Settings.search_font S) (Settings.search_font_size S)
             (bool_decide ("unread" ∈ Search.tags thread_d)))
  /\ (is_Some (Settings.theme S !! "fg") ->
      exists key colour,
        Settings.theme S !! key = Some colour
        /\ SearchViews.data S sm row column QtData.ForegroundRole = Ok (QtData.Color colour))
  /\ (forall role row' column',
        Z.of_nat (length (Search.d sm)) <= row' \/ 4 <= column' ->
        SearchViews.data S sm row' column' role = Ok QtData.NoData).
Proof.
  intros Hrow Hd Hcol. pose proof (lookup_lt_Some _ _ _ Hd) as Hlt.
  assert (0 <= row < Z.of_nat (length (Search.d sm))) as Hrange by lia.
  destruct (getitem_in_range (Search.d sm) row Hrange) as (thread_d' & Hget & Hd').
  assert (thread_d' = thread_d) as -> by congruence.
  destruct (getitem_columns column Hcol) as (col & Hgetc & Hname).
  unfold SearchViews.data.
  destruct (Z.geb_spec row (Z.of_nat (length (Search.d sm)))); [lia |].
  destruct (Z.geb_spec column (Z.of_nat (length SearchViews.columns))); [simpl in *; lia |].
  cbn [orb]. rewrite Hget, Hgetc. cbn.
  split; [| split; [done | split]].
  - destruct Hname as [-> | [-> | [-> | ->]]]; cbn; eauto.
  - intros [fg Hfg]. unfold Settings.theme_getitem.
    destruct (bool_decide ("unread" ∈ Search.tags thread_d)); cbn.
    + case_bool_decide as Hu; [destruct Hu as [c Hc]; rewrite Hc; eauto |].
      case_bool_decide as Hc'; [destruct Hc' as [c Hc]; rewrite Hc; eauto |].
      rewrite Hfg. eauto.
    + case_bool_decide as Hc'; [destruct Hc' as [c Hc]; rewrite Hc; eauto |].
      rewrite Hfg. eauto.
  - intros role row' column' [Hr | Hc].
    + by destruct (Z.geb_spec row' (Z.of_nat (length (Search.d sm)))); [| lia].
    + destruct (Z.geb_spec column' (Z.of_nat 4)); [| lia].
      by destruct (row' >=? Z.of_nat (length (Search.d sm))).
Qed.

Lemma SearchModel_data_cell_witness :
  SearchViews.data sample_settings (Search.model two_rows) 0 3 QtData.FontRole
  = Ok (QtData.Font "DejaVu Sans Mono" 13 true).
Proof.
  assert (0 <= 0) as Hrow by lia.
  assert (0 <= 3 < 4) as Hcol by lia.
  destruct (SearchModel_data_cell sample_settings (Search.model two_rows) 0 3 sample_row
              Hrow eq_refl Hcol) as (_ & Hfont & _).
  exact Hfont.
Defined.

(** ** Assembling the outgoing message *)

Lemma copy_headers_appends (E : env) (m : Message) (names attachments : list string)
    (eml : EmailMessage) (attachments' : list string) (eml' : EmailMessage) :
  appends E ->
  copy_headers E m names attachments eml = Ok (attachments', eml') ->
  attachments'
  = attachments
      ++ replicate (length (filter (fun h => h = "A") names))
           (default "" (Message_getitem (fields m) "A"))
  /\ eml'
     = {| eml_fields :=
            eml_fields eml
              ++ ((fun h => (h, default "" (Message_getitem (fields m) h)))
                    <$> filter (fun h => h <> "A") names);
          eml_content := eml_content eml;
          eml_attachments := eml_attachments eml |}.
Proof.
  intros Happ. revert attachments eml.
  induction names as [| h names IH]; intros attachments eml Hcopy.
  - cbn in Hcopy. injection Hcopy as <- <-. cbn. rewrite !app_nil_r. by destruct eml.
  - cbn [copy_headers] in Hcopy. rewrite !filter_cons.
    destruct (String.eqb_spec h "A") as [-> | Hne].
    + apply IH in Hcopy as [-> ->].
      rewrite decide_True by done. rewrite decide_False by (intros ?; done).
      cbn. by rewrite <- app_assoc.
    + destruct (setitem E eml h _) as [eml1 | e] eqn:Hset; [| done].
      apply Happ in Hset as ->. cbn [mbind Py.res_bind] in Hcopy.
      apply IH in Hcopy as [-> ->].
      rewrite decide_False by done. rewrite decide_True by done.
      cbn. by rewrite <- app_assoc.
Qed.

Lemma attach_readable (E : env) (value bytes : string) (n : nat) (eml : EmailMessage) :
  read_bytes E (expanduser E value) = Some bytes ->
  attach E (replicate n value) eml
  = Ok {| eml_fields := eml_fields eml; eml_content := eml_content eml;
          eml_attachments := eml_attachments eml ++ replicate n (part_of E value bytes) |}.
Proof.
  intros Hread. revert eml. induction n as [| n IH]; intros eml.
  - cbn. rewrite app_nil_r. by destruct eml.
  - cbn [replicate attach]. rewrite Hread, IH. cbn.
    by rewrite <- app_assoc.
Qed.

Lemma assemble_appends (E : env) (text : string) (eml : EmailMessage) :
  appends E ->
  assemble E text = Ok eml ->
  let m := message_from_string E text in
  attach E (replicate (attachment_headers m) (default "" (Message_getitem (fields m) "A")))
    {| eml_fields :=
         transmitted m
           ++ (if bool_decide (is_Some (Message_getitem (transmitted m) "Date"))
               then [] else [("Date", formatdate E)]);
       eml_content := Some (payload m);
       eml_attachments := [] |}
  = Ok eml.
Proof.
  intros Happ Hasm m. unfold assemble in Hasm. fold m in Hasm.
  destruct (copy_headers E m (fst <$> fields m) [] EmailMessage_new)
    as [[attachments eml0] | e] eqn:Hcopy; [| done].
  apply (copy_headers_appends _ _ _ _ _ _ _ Happ) in Hcopy as [-> ->].
  cbn [mbind Py.res_bind] in Hasm.
  unfold EmailMessage_contains, set_content, EmailMessage_new in Hasm.
  cbn [eml_fields eml_content eml_attachments app] in Hasm.
  fold (header_names m) in Hasm. fold (transmitted m) in Hasm.
  fold (attachment_headers m) in Hasm.
  destruct (bool_decide (is_Some (Message_getitem (transmitted m) "Date"))).
  - cbn [mbind Py.res_bind] in Hasm. by rewrite app_nil_r.
  - destruct (setitem E _ "Date" (formatdate E)) as [eml1 | e] eqn:Hset; [| done].
    apply Happ in Hset as ->. exact Hasm.
Qed.

Lemma Message_getitem_appended (fs : list (string * string)) (name value : string) :
  is_Some (Message_getitem (fs ++ [(name, value)]) name).
Proof.
  unfold Message_getitem. induction fs as [| f fs IH]; cbn [app List.find].
  - cbn [fst]. rewrite String.eqb_refl. by eexists.
  - destruct (String.eqb _ _); [by eexists | done].
Qed.

Lemma attach_fields (E : env) (attachments : list string) (eml0 eml : EmailMessage) :
  attach E attachments eml0 = Ok eml ->
  eml_fields eml = eml_fields eml0 /\ eml_content eml = eml_content eml0.
Proof.
  revert eml0. induction attachments as [| att attachments IH]; intros eml0 Heq.
  - by injection Heq as <-.
  - cbn in Heq. destruct (read_bytes E (expanduser E att)); [| done].
    by apply IH in Heq.
Qed.





(** The content type of an attachment always has its two components: the
    guess of [mimetypes] when that is a non-empty string with exactly one
    slash, and application/octet-stream in every other case, so [ty[0]] and
    [ty[1]] exist. *)
Lemma attachment_type_two_components (E : env) (att : string) :
  (exists maintype subtype, attachment_type E att = [maintype; subtype])
  /\ (guess_type E att = None -> attachment_type E att = ["application"; "octet-stream"])
  /\ (forall mime, guess_type E att = Some mime ->
        length (split_on "/" mime) <> 2%nat ->
        attachment_type E att = ["application"; "octet-stream"]).
Proof.
  unfold attachment_type. repeat split.
  - destruct (guess_type E att) as [mime |]; [| by eauto].
    destruct (negb _); cbn; [| by eauto].
    destruct (Nat.eqb_spec (length (split_on "/" mime)) 2) as [Hlen | Hlen]; [| by eauto].
    destruct (split_on "/" mime) as [| a [| b [| c l]]]; try done. by eauto.
  - by intros ->.
  - intros mime -> Hlen.
    destruct (Nat.eqb_spec (length (split_on "/" mime)) 2); [done |].
    by rewrite andb_false_r.
Qed.

(** ** Newlines of an edited draft *)

Lemma universal_newlines_removes_CR (raw : string) :
  contains_char CR (universal_newlines raw) = false.
Proof.
  assert (forall n text, (String.length text <= n)%nat ->
            contains_char CR (universal_newlines text) = false) as Hlen.
  { induction n as [| n IH]; intros [| c rest] Hle; cbn [String.length] in Hle;
      try done; try lia.
    cbn [universal_newlines].
    destruct (Ascii.eqb_spec c CR) as [-> | Hne].
    - cbn [contains_char]. rewrite (eq_refl : Ascii.eqb CR LF = false).
      destruct rest as [| c' rest']; [done |]. cbn [String.length] in Hle.
      destruct (Ascii.eqb c' LF); apply IH; cbn [String.length]; lia.
    - cbn [contains_char]. destruct (Ascii.eqb_spec CR c); [congruence |].
      apply IH. lia. }
  by apply (Hlen (String.length raw)).
Qed.

(** Once the editor has run and left a file behind, the draft holds no
    carriage return, whatever line ends the editor wrote; reading that
    text again as a file gives the same text. *)
Lemma EditorThread_run_newlines (E : env) (view : ComposeView) (returncode : Z)
    (raw : string) :
  editor E (message_string view) = Exited returncode (Some raw) ->
  let edited := message_string (self (exec (EditorThread_run E) view).1) in
  contains_char CR edited = false /\ universal_newlines edited = edited.
Proof.
  intros Hed edited.
  assert (edited = universal_newlines raw) as ->.
  { subst edited. unfold EditorThread_run, edit_done, ComposeView_refresh. run.
    by rewrite Hed. }
  split; [apply universal_newlines_removes_CR |].
  apply universal_newlines_no_CR, universal_newlines_removes_CR.
Qed.

Lemma EditorThread_run_newlines_witness :
  let E := with_editor (fun _ => Exited 0 (Some dos_file)) sample_env in
  let edited :=
    message_string
      (self (exec (EditorThread_run E) (ComposeView_init E plain_draft None)).1) in
  edited = String "T" (String "o" (String LF (String "b" (String LF "c"))))
  /\ contains_char CR edited = false.
Proof.
  split; [reflexivity |].
  apply (EditorThread_run_newlines
           (with_editor (fun _ => Exited 0 (Some dos_file)) sample_env)
           (ComposeView_init sample_env plain_draft None) 0 dos_file eq_refl).
Defined.

(** ** What a compose session leaves alone *)

Lemma step_frame (E : env) (ev : event) (s : state ComposeView) :
  reply_to (self (step E ev s)) = reply_to (self s)
  /\ (ev <> EditorThreadRuns ->
      message_string (self (step E ev s)) = message_string (self s))
  /\ (ev = CallEdit \/ ev = EditorThreadRuns ->
      status (self (step E ev s)) = status (self s)
      /\ sendmail_thread (self (step E ev s)) = sendmail_thread (self s))
  /\ (ev = CallSend \/ ev = SendmailThreadRuns ->
      editor_thread (self (step E ev s)) = editor_thread (self s)).
Proof.
  destruct s as [view t].
  destruct ev; unfold step, edit, send, EditorThread_run, SendmailThread_run, edit_done,
    ComposeView_refresh, wait; run.
  all: repeat (case_match; simplify_eq/=); intuition congruence.
Qed.

(** Over a whole session the message replied to is never replaced.  The
    draft text changes only when an editor thread runs: neither [edit],
    [send] nor a run of the send thread touches it.  Editing leaves the
    status line and the send handle alone, and sending leaves the editor
    handle alone. *)
Theorem session_frame (evs : list (env * event)) (s : state ComposeView) :
  let s' := session evs s in
  reply_to (self s') = reply_to (self s)
  /\ (Forall (fun ev => ev.2 <> EditorThreadRuns) evs ->
      message_string (self s') = message_string (self s))
  /\ (Forall (fun ev => ev.2 = CallEdit \/ ev.2 = EditorThreadRuns) evs ->
      status (self s') = status (self s)
      /\ sendmail_thread (self s') = sendmail_thread (self s))
  /\ (Forall (fun ev => ev.2 = CallSend \/ ev.2 = SendmailThreadRuns) evs ->
      editor_thread (self s') = editor_thread (self s)).
Proof.
  revert s. induction evs as [| [E ev] evs IH]; intros s; [done |].
  change (session ((E, ev) :: evs) s) with (session evs (step E ev s)).
  specialize (IH (step E ev s)). cbn zeta in *.
  destruct IH as (IHr & IHm & IHs & IHe).
  destruct (step_frame E ev s) as (Hr & Hm & Hs & He).
  split; [congruence |]. split; [| split].
  - intros Hall. apply Forall_cons in Hall as [Hev Hall]. cbn in Hev.
    rewrite (IHm Hall). by apply Hm.
  - intros Hall. apply Forall_cons in Hall as [Hev Hall]. cbn in Hev.
    destruct (IHs Hall) as [-> ->]. by apply Hs.
  - intros Hall. apply Forall_cons in Hall as [Hev Hall]. cbn in Hev.
    rewrite (IHe Hall). by apply He.
Qed.

(** ** Editor threads of a session *)

Lemma edit_is_noop (s : state ComposeView) :
  editor_thread (self s) <> None -> edit s = (s, Ok tt).
Proof.
  intros Hset. unfold edit. run. by destruct (editor_thread (self s)).
Qed.

Lemma step_editor_invariant (E : env) (ev : event) (s : state ComposeView) :
  editor_invariant s -> editor_invariant (step E ev s).
Proof.
  destruct s as [view t]. unfold editor_invariant. cbn [self trace]. intros [Hcount Hfin].
  destruct ev; unfold step, edit, send, EditorThread_run, SendmailThread_run, edit_done,
    ComposeView_refresh, wait; run.
  all: repeat (case_match; simplify_eq/=); split; try done;
    cbn [self trace editor_thread set_status set_sendmail_thread set_editor_thread
         set_message_string] in *;
    rewrite ?count_effects_app;
    cbn [count_effects List.filter is_editor_start is_write_file length String.eqb
         Ascii.eqb Bool.eqb] in *;
    try (cbn; lia).
Qed.

(** In a session that starts from a freshly built compose view, every
    editor thread that was started has run, except the one the handle
    holds: at most one editor is pending at any time.  While the handle is
    set [edit] does nothing, and the handle never holds a finished
    thread. *)
Theorem one_editor_at_a_time (E : env) (email_address : string)
    (email_sep_split : string -> list string) (quote_body_text : message -> string)
    (reply : option message) (reply_to_all : bool) (view : ComposeView)
    (evs : list (env * event)) :
  ComposeInit.ComposeView_new E email_address email_sep_split quote_body_text
    reply reply_to_all = Ok view ->
  let s := session evs (State view []) in
  count_effects is_editor_start (trace s)
  = (count_effects is_write_file (trace s)
     + match editor_thread (self s) with Some _ => 1 | None => 0 end)%nat
  /\ editor_thread (self s) <> Some Finished
  /\ (forall s', editor_thread (self s') <> None -> edit s' = (s', Ok tt)).
Proof.
  intros Hnew s.
  assert (editor_invariant (State view [])) as Hinit.
  { unfold ComposeInit.ComposeView_new in Hnew.
    destruct (ComposeInit.draft_text _ _ _ _ _) as [draft | e]; [| done].
    injection Hnew as <-. by split. }
  assert (editor_invariant s) as [Hcount Hfin].
  { subst s. revert Hinit. generalize (State view []).
    induction evs as [| [E' ev] evs IH]; intros s0 Hinv; [done |].
    apply IH. by apply step_editor_invariant. }
  split; [done |]. split; [done |]. apply edit_is_noop.
Qed.

Lemma one_editor_at_a_time_witness :
  exists view,
    ComposeInit.ComposeView_new sample_env "a@x" (fun v => [v]) (fun _ => "> hi")
      (Some sample_original) true = Ok view
    /\ let s := session [(sample_env, CallEdit); (sample_env, CallEdit);
                         (sample_env, EditorThreadRuns); (sample_env, CallEdit)]
                  (State view []) in
       count_effects is_editor_start (trace s) = 2%nat
       /\ count_effects is_write_file (trace s) = 1%nat.
Proof.
  destruct (ComposeInit.ComposeView_new sample_env "a@x" (fun v => [v]) (fun _ => "> hi")
              (Some sample_original) true) as [view | e] eqn:Hnew;
    [| vm_compute in Hnew; discriminate Hnew].
  exists view. split; [reflexivity |].
  destruct (one_editor_at_a_time sample_env "a@x" (fun v => [v]) (fun _ => "> hi")
              (Some sample_original) true view
              [(sample_env, CallEdit); (sample_env, CallEdit);
               (sample_env, EditorThreadRuns); (sample_env, CallEdit)] Hnew)
    as (Hcount & _ & _).
  vm_compute in Hnew. injection Hnew as <-.
  split; vm_compute; reflexivity.
Defined.

(** ** Building the draft of a reply *)

(** The subject of a reply always starts with RE: in some spelling, and
    prefixing is idempotent: a subject that already went through it is
    kept as it is. *)
Theorem reply_subject_idempotent (subject : string) :
  ComposeInit.upper (String.substring 0 3 (ComposeInit.reply_subject subject)) = "RE:"
  /\ ComposeInit.reply_subject (ComposeInit.reply_subject subject)
     = ComposeInit.reply_subject subject.
Proof.
  assert (ComposeInit.upper (String.substring 0 3 (ComposeInit.reply_subject subject))
          = "RE:") as Hre.
  { unfold ComposeInit.reply_subject.
    destruct (String.eqb_spec (ComposeInit.upper (String.substring 0 3 subject)) "RE:")
      as [Heq | Hne]; cbn [negb]; [done |].
    cbn. by destruct subject. }
  split; [done |].
  unfold ComposeInit.reply_subject at 1. by rewrite Hre.
Qed.

Lemma append_assoc (a b c : string) : (a +:+ b) +:+ c = a +:+ (b +:+ c).
Proof.
  induction a as [| x a IH]; [done |].
  change (String x ((a +:+ b) +:+ c) = String x (a +:+ (b +:+ c))). by f_equal.
Qed.


(** ** A reply whose original has no identifier *)

(** The constructor allows for a message replied to without an id; the
    send thread does not.  When the agent accepts such a reply, the copy is
    stored in the sent folder and then KeyError leaves [run]: the index is
    not refreshed, the panels are not invalidated, and the status line
    stays as [send] set it. *)
Lemma send_reply_without_id (E : env) (view : ComposeView) (eml : EmailMessage)
    (original : message) (exit_after : nat) :
  assemble E (message_string view) = Ok eml ->
  sendmail_exit_after E = Some exit_after ->
  (exit_after <= 30)%nat ->
  sendmail_returncode E = 0 ->
  reply_to view = Some original ->
  id original = None ->
  exec (SendmailThread_run E) view
  = (State view
       (sendmail_effects E eml
          ++ [MaildirAdd (sent_dir E) (as_string E eml) "S"; Done;
              SetHtml (status view) (message_string view)]),
     Raise (KeyError "id")).
Proof.
  intros Hasm Hexit Hle Hrc Hreply Hid.
  rewrite (SendmailThread_run_assembled E view eml Hasm).
  unfold wait. rewrite Hexit, Hrc, Hreply, Hid.
  apply Nat.leb_le in Hle. by rewrite Hle.
Qed.

Lemma send_reply_without_id_witness :
  let view := sending_view sample_env plain_draft (Some sample_original) in
  (exec (SendmailThread_run sample_env) view).2 = Raise (KeyError "id")
  /\ status (self (exec (SendmailThread_run sample_env) view).1)
     = status_markup "$fg_bright" "sending".
Proof.
  assert (1 <= 30)%nat as Hle by lia.
  intros view.
  destruct (assemble sample_env (message_string view)) as [eml | e] eqn:Hasm;
    [| vm_compute in Hasm; discriminate Hasm].
  rewrite (send_reply_without_id sample_env view eml sample_original 1%nat
             Hasm eq_refl Hle eq_refl eq_refl eq_refl).
  split; reflexivity.
Defined.
